(** * Rank of neural Hessians: the notebook [hessian_rank.ipynb]

    The notebook is a straight-line script over a module-level namespace.
    It is embedded cell by cell: every code cell is a function from the
    namespace (a finite map from names to values) to either a new namespace
    or the exception that aborts the run.

    - Python [int]s are unbounded integers ([Z]).
    - [jax.numpy] integer scalars are 64-bit ([jax_enable_x64] is switched
      on in the second code cell): [Z] with the wrap-around written out.
    - float64 tensors are lists of rows over an abstract scalar type; the
      laws of exact arithmetic are a separate class, assumed only where a
      statement needs them.  IEEE rounding does not satisfy them: the
      hardware floats are an instance of the scalars but not of the laws.
    - the collaborators that live outside the notebook ([get_dataset],
      [fully_connected], [loss_hessian], [outer_prod], the torch loader,
      [jnp.linalg.matrix_rank]) are parameters.
    - the import cell and [config.update("jax_enable_x64", True)] bind no
      name that the model reads. *)

From stdpp Require Import gmap strings list fin_maps pretty.
From Stdlib Require Import ZArith Lia.
From Stdlib Require Import Floats.PrimFloat.

Open Scope Z_scope.

(** ** Exceptions *)

(** [NameError]: an unbound name is read.  [TypeError]: a value is used at
    a type it does not have.  [OverflowError]: a Python [int] does not fit
    the 64-bit integer it is converted to.  [ValueError]: [jnp.min] of an
    empty array.  [ShapeError]: [jnp.zeros] with a negative size (the
    class of this exception depends on the library version). *)
Inductive exn : Type :=
  | NameError (name : string)
  | TypeError
  | OverflowError
  | ValueError
  | ShapeError.

Inductive result (A : Type) : Type :=
  | Ok (a : A)
  | Raise (e : exn).
Arguments Ok {A} a.
Arguments Raise {A} e.

#[global] Instance result_ret : MRet result := λ A a, Ok a.
#[global] Instance result_bind : MBind result := λ A B f m,
  match m with
  | Ok a => f a
  | Raise e => Raise e
  end.

#[global] Instance result_fmap : FMap result := λ A B f m,
  match m with
  | Ok a => Ok (f a)
  | Raise e => Raise e
  end.

Fixpoint mapR {A B : Type} (f : A → result B) (l : list A) : result (list B) :=
  match l with
  | [] => Ok []
  | a :: l' => b ← f a; bs ← mapR f l'; Ok (b :: bs)
  end.

(** ** 64-bit integers of [jax.numpy] *)

Module Int64.

Definition modulus : Z := 2 ^ 64.
Definition min_int : Z := - 2 ^ 63.
Definition max_int : Z := 2 ^ 63 - 1.

Definition in_range (z : Z) : bool := (min_int <=? z) && (z <=? max_int).

(** Two's-complement reduction of an integer to the signed range. *)
Definition wrap (z : Z) : Z := (z + 2 ^ 63) mod modulus - 2 ^ 63.

Definition add (a b : Z) : Z := wrap (a + b).
Definition sub (a b : Z) : Z := wrap (a - b).
Definition mul (a b : Z) : Z := wrap (a * b).
(** [x ** n] for a Python literal [n >= 0] is [lax.integer_pow]. *)
Definition pow (a : Z) (n : Z) : Z := wrap (a ^ n).

(** A Python [int] entering an int64 computation: it must fit. *)
Definition of_int (z : Z) : result Z :=
  if in_range z then Ok z else Raise OverflowError.

End Int64.

(** ** Python and [jax.numpy] builtins used by the last cell *)

(** [sum(l)] on a list of ints. *)
Definition py_sum (l : list Z) : Z := foldl Z.add 0 l.

(** [len(l)]. *)
Definition py_len {A : Type} (l : list A) : Z := Z.of_nat (length l).

(** [jnp.array(l)] on a list of integers: an int64 vector. *)
Definition jnp_array (l : list Z) : result (list Z) := mapR Int64.of_int l.

(** [jnp.min(a)] on a vector; the reduction of an empty array is an error. *)
Definition jnp_min (a : list Z) : result Z :=
  match a with
  | [] => Raise ValueError
  | x :: a' => Ok (foldl Z.min x a')
  end.

(** ** The right-hand sides of the last cell

    [s = jnp.min(jnp.array([rank_cov, classes]))]
    [q = jnp.min(jnp.array([rank_cov, classes] + widths))]
    [pred_F = 2 * q * sum(widths) + 2 * q * s - (len(widths)+1) * q**2]
    [pred_outer = (rank_cov + classes - q) * q]
    [pred_L = pred_F + pred_outer + q * (q - 2 * s)]

    [rank_cov], [s], [q] and the three predictions are int64 scalars;
    [classes], [widths], [sum(widths)] and [len(widths)+1] are Python ints
    that are converted when they meet an int64 operand. *)

Definition expr_s (rank_cov classes : Z) : result Z :=
  a ← jnp_array [rank_cov; classes]; jnp_min a.

Definition expr_q (rank_cov classes : Z) (widths : list Z) : result Z :=
  a ← jnp_array ([rank_cov; classes] ++ widths); jnp_min a.

Definition expr_pred_F (q s : Z) (widths : list Z) : result Z :=
  sw ← Int64.of_int (py_sum widths);
  n ← Int64.of_int (py_len widths + 1);
  Ok (Int64.sub
        (Int64.add (Int64.mul (Int64.mul 2 q) sw) (Int64.mul (Int64.mul 2 q) s))
        (Int64.mul n (Int64.pow q 2))).

Definition expr_pred_outer (rank_cov classes q : Z) : result Z :=
  k ← Int64.of_int classes;
  Ok (Int64.mul (Int64.sub (Int64.add rank_cov k) q) q).

Definition expr_pred_L (pred_F pred_outer q s : Z) : Z :=
  Int64.add (Int64.add pred_F pred_outer)
            (Int64.mul q (Int64.sub q (Int64.mul 2 s))).

(** The five assignments in sequence, on the values of [rank_cov],
    [classes] and [widths] current when they run. *)
Record prediction : Type := Prediction {
  val_s : Z;
  val_q : Z;
  val_pred_F : Z;
  val_pred_outer : Z;
  val_pred_L : Z
}.

Definition bounds (rank_cov classes : Z) (widths : list Z) : result prediction :=
  s ← expr_s rank_cov classes;
  q ← expr_q rank_cov classes widths;
  pred_F ← expr_pred_F q s widths;
  pred_outer ← expr_pred_outer rank_cov classes q;
  Ok (Prediction s q pred_F pred_outer (expr_pred_L pred_F pred_outer q s)).

(** The quantities of the paper, over the integers. *)
Definition min_all (r k : Z) (widths : list Z) : Z := foldl Z.min r (k :: widths).

Definition ideal_outer (r k q : Z) : Z := q * (r + k - q).
Definition ideal_F (q s : Z) (widths : list Z) : Z :=
  2 * q * py_sum widths + 2 * q * s - (py_len widths + 1) * q ^ 2.
Definition ideal_L (r k q s : Z) (widths : list Z) : Z :=
  ideal_F q s widths + ideal_outer r k q + q * (q - 2 * s).
Definition closed_L (r k q : Z) (widths : list Z) : Z :=
  2 * q * py_sum widths - (py_len widths + 1) * q ^ 2 + q * (r + k).

(** ** Tensors

    A two-dimensional array is the list of its rows.  The elementwise
    operations are those the notebook applies to arrays of one shape (the
    collaborators return arrays of the shape of the accumulator they are
    added to); on operands of different shapes, where the library would
    broadcast or raise, they pair the entries that both operands have. *)

Class Arith (T : Type) : Type := {
  t_zero : T;
  t_add : T → T → T;
  t_sub : T → T → T;
  t_mul : T → T → T
}.

(** The laws of exact arithmetic that the accumulation relies on. *)
Class ExactArith (T : Type) `{!Arith T} : Prop := {
  t_add_comm : ∀ a b : T, t_add a b = t_add b a;
  t_add_assoc : ∀ a b c : T, t_add a (t_add b c) = t_add (t_add a b) c;
  t_sub_add : ∀ a b : T, t_add (t_sub a b) b = a
}.

(** The scalar functions of the three loss bodies; [logsoftmax] is the
    library function of [jax.experimental.stax], along the last axis. *)
Class LossOps (T : Type) : Type := {
  t_half : T;
  t_neg : T → T;
  t_log : T → T;
  t_cosh : T → T;
  logsoftmax : list (list T) → list (list T)
}.

Abbreviation matrix T := (list (list T)).

Section Tensor.
Context {T : Type} `{!Arith T}.

Definition zeros (m n : nat) : matrix T := replicate m (replicate n t_zero).

(** [jnp.zeros(shape=(m, n))] for Python ints [m], [n].  A size that is
    not negative but too large to allocate makes the library fail; that
    failure is not modelled. *)
Definition jnp_zeros (m n : Z) : result (matrix T) :=
  if (m <? 0) || (n <? 0) then Raise ShapeError
  else Ok (zeros (Z.to_nat m) (Z.to_nat n)).

Definition mmap (f : T → T) (A : matrix T) : matrix T := map (map f) A.
Definition mzip (f : T → T → T) (A B : matrix T) : matrix T :=
  zip_with (zip_with f) A B.

Definition madd : matrix T → matrix T → matrix T := mzip t_add.
Definition msub : matrix T → matrix T → matrix T := mzip t_sub.
Definition mmul : matrix T → matrix T → matrix T := mzip t_mul.
(** [A ** 2] *)
Definition msquare (A : matrix T) : matrix T := mmap (λ x, t_mul x x) A.

(** [A.T] *)
Fixpoint transpose (A : matrix T) : matrix T :=
  match A with
  | [] => []
  | r :: A' =>
      match A' with
      | [] => map (λ x, [x]) r
      | _ :: _ => zip_with cons r (transpose A')
      end
  end.

Definition dot (u v : list T) : T := foldl t_add t_zero (zip_with t_mul u v).

(** [A @ B] *)
Definition matmul (A B : matrix T) : matrix T :=
  map (λ r, map (dot r) (transpose B)) A.

(** [jnp.sum(A)] *)
Definition jnp_sum (A : matrix T) : T := foldl t_add t_zero (concat A).

Definition has_shape (m n : nat) (A : matrix T) : Prop :=
  length A = m ∧ Forall (λ r, length r = n) A.

End Tensor.

(** ** Values and the module namespace *)

Inductive loss_family : Type := Mse | Cross | Cosh.

(** Function objects.  The closures returned by [fully_connected] keep the
    arguments they were built from; the functions defined by the loss cell
    are told apart by the branch whose [def] created them. *)
Inductive pyfun : Type :=
  | Fn_init (scheme : string)
  | Fn_init_fn (units : list Z) (classes : Z) (scheme : string)
  | Fn_apply_fn (units : list Z) (classes : Z)
  | Fn_loss (f : loss_family)
  | Fn_loss_params (f : loss_family).

Inductive value (T : Type) : Type :=
  | VInt (z : Z)
  | VInts (l : list Z)
  | VStr (s : string)
  | VBool (b : bool)
  | VKey (seed : Z)
  | VI64 (z : Z)
  | VMat (A : matrix T)
  | VMats (ps : list (matrix T))
  | VData (x_train y_train : matrix T)
  | VLoader (batches : list (matrix T * matrix T))
  | VFun (f : pyfun)
  | VOut (lines : list string).
Arguments VInt {T} z.
Arguments VInts {T} l.
Arguments VStr {T} s.
Arguments VBool {T} b.
Arguments VKey {T} seed.
Arguments VI64 {T} z.
Arguments VMat {T} A.
Arguments VMats {T} ps.
Arguments VData {T} x_train y_train.
Arguments VLoader {T} batches.
Arguments VFun {T} f.
Arguments VOut {T} lines.

Abbreviation globals T := (gmap string (value T)).

(** The console is kept in the namespace under a key that is no Python
    identifier. *)
Definition stdout : string := "<stdout>".

Section Namespace.
Context {T : Type}.

(** Reading a name: an unbound one is a [NameError]. *)
Definition get (x : string) (g : globals T) : result (value T) :=
  match g !! x with
  | Some v => Ok v
  | None => Raise (NameError x)
  end.

Definition get_int (x : string) (g : globals T) : result Z :=
  v ← get x g; match v with VInt z => Ok z | _ => Raise TypeError end.
Definition get_ints (x : string) (g : globals T) : result (list Z) :=
  v ← get x g; match v with VInts l => Ok l | _ => Raise TypeError end.
Definition get_str (x : string) (g : globals T) : result string :=
  v ← get x g; match v with VStr s => Ok s | _ => Raise TypeError end.
Definition get_bool (x : string) (g : globals T) : result bool :=
  v ← get x g; match v with VBool b => Ok b | _ => Raise TypeError end.
Definition get_key (x : string) (g : globals T) : result Z :=
  v ← get x g; match v with VKey k => Ok k | _ => Raise TypeError end.
Definition get_i64 (x : string) (g : globals T) : result Z :=
  v ← get x g; match v with VI64 z => Ok z | _ => Raise TypeError end.
Definition get_mat (x : string) (g : globals T) : result (matrix T) :=
  v ← get x g; match v with VMat A => Ok A | _ => Raise TypeError end.
Definition get_mats (x : string) (g : globals T) : result (list (matrix T)) :=
  v ← get x g; match v with VMats ps => Ok ps | _ => Raise TypeError end.
Definition get_data (x : string) (g : globals T) : result (matrix T * matrix T) :=
  v ← get x g; match v with VData a b => Ok (a, b) | _ => Raise TypeError end.
Definition get_loader (x : string) (g : globals T)
  : result (list (matrix T * matrix T)) :=
  v ← get x g; match v with VLoader bl => Ok bl | _ => Raise TypeError end.
Definition get_fun (x : string) (g : globals T) : result pyfun :=
  v ← get x g; match v with VFun f => Ok f | _ => Raise TypeError end.

(** Statements transform the namespace or raise. *)
Definition stmt : Type := globals T → result (globals T).

Definition then_ (s1 s2 : stmt) : stmt := λ g, g' ← s1 g; s2 g'.
(** [x = e] *)
Definition assign (x : string) (e : globals T → result (value T)) : stmt :=
  λ g, v ← e g; Ok (<[x := v]> g).
(** [x, y = e] *)
Definition assign2 (x y : string)
    (e : globals T → result (value T * value T)) : stmt :=
  λ g, vw ← e g; Ok (<[y := vw.2]> (<[x := vw.1]> g)).
(** [if c: s] *)
Definition when (c : globals T → result bool) (s : stmt) : stmt :=
  λ g, b ← c g; if b : bool then s g else Ok g.
(** [for ... in l: body] *)
Fixpoint for_each {B : Type} (body : B → stmt) (l : list B) : stmt :=
  λ g, match l with
       | [] => Ok g
       | b :: l' => g' ← body b g; for_each body l' g'
       end.
(** [print(e)] *)
Definition print (e : globals T → result string) : stmt :=
  λ g, line ← e g;
       Ok (<[stdout := VOut (match g !! stdout with
                             | Some (VOut ls) => ls ++ [line]
                             | _ => [line]
                             end)]> g).

(** [s] writes no name outside [X]. *)
Definition modifies (s : stmt) (X : list string) : Prop :=
  ∀ g g', s g = Ok g' → ∀ x, x ∉ X → g' !! x = g !! x.

End Namespace.

Declare Scope stmt_scope.
Delimit Scope stmt_scope with stmt.
Bind Scope stmt_scope with stmt.
Notation "s1 ;; s2" := (then_ s1%stmt s2%stmt)
  (at level 100, s2 at level 200, right associativity) : stmt_scope.

(** ** Configuration

    The literals of the hyperparameter cell and the three names chosen in
    the dataset, initialisation and loss cells. *)

Record config : Type := Config {
  cfg_n_train : Z;
  cfg_dim : Z;
  cfg_widths : list Z;
  cfg_classes : Z;
  cfg_bs : Z;
  cfg_seed : Z;
  cfg_dataset : string;
  cfg_init : string;
  cfg_loss_name : string
}.

Definition reference_config : config :=
  Config 50 25 [5; 10] 10 10 1 "CIFAR" "glorot" "mse".

(** [[l[i] * l[i + 1] for i in range(len(l)-1)]] *)
Definition adjacent_products (l : list Z) : list Z :=
  (λ i, l !!! i * l !!! S i) <$> seq 0 (length l - 1)%nat.

(** ** The notebook *)

(** The branch of the loss cell that a name selects, if any. *)
Definition selected (loss_name : string) : option loss_family :=
  if String.eqb loss_name "mse" then Some Mse
  else if String.eqb loss_name "cross" then Some Cross
  else if String.eqb loss_name "cosh" then Some Cosh
  else None.

Definition is_cross (f : loss_family) : bool :=
  match f with Cross => true | _ => false end.

(** The class count that enters the bounds. *)
Definition effective_classes (loss_name : string) (classes : Z) : Z :=
  if String.eqb loss_name "cross" then classes - 1 else classes.


(** The collaborators of the notebook.  [get_dataset], [fully_connected],
    [loss_hessian], [outer_prod] and [DatasetTorch] are functions of the
    repository that the notebook imports; [DataLoader] and [matrix_rank]
    come from torch and jax.  They are arbitrary functions here, and a
    statement that needs something of them says so.  They are total and
    silent: an exception raised inside one of them and what one prints
    (the download notice of [get_dataset]) are not modelled, so the console
    holds the lines of the notebook's own [print] calls only.

    [fully_connected] returns a pair of closures; what they compute when
    called is [fully_connected_init] (the output shape and the weight
    matrices) and [fully_connected_apply].  [DataLoader x y bs] is the list
    of batches that iterating [DataLoader(DatasetTorch(x, y), batch_size=bs)]
    yields. *)
Class Collaborators (T : Type) : Type := {
  get_dataset : string → Z → Z → Z → Z → matrix T * matrix T;
  DataLoader : matrix T → matrix T → Z → list (matrix T * matrix T);
  fully_connected_init : list Z → Z → string → Z → Z → list Z * list (matrix T);
  fully_connected_apply : list Z → Z → list (matrix T) → matrix T → matrix T;
  loss_hessian :
    (list (matrix T) → matrix T → matrix T → result T) →
    list (matrix T) → matrix T → matrix T → matrix T;
  outer_prod :
    (matrix T → matrix T → result T) →
    (list (matrix T) → matrix T → result (matrix T)) →
    list (matrix T) → matrix T → matrix T → bool → matrix T;
  matrix_rank : matrix T → Z
}.

(** The same collaborators with another loader. *)
Definition with_loader {T : Type} (C : Collaborators T)
    (loader : matrix T → matrix T → Z → list (matrix T * matrix T))
  : Collaborators T :=
  {| get_dataset := get_dataset;
     DataLoader := loader;
     fully_connected_init := fully_connected_init;
     fully_connected_apply := fully_connected_apply;
     loss_hessian := loss_hessian;
     outer_prod := outer_prod;
     matrix_rank := matrix_rank |}.

Section Notebook.
Context {T : Type} `{!Arith T} `{!LossOps T} `{!Collaborators T}.

(** *** Calling the function objects *)

Definition call_apply_fn (f : pyfun) (params : list (matrix T))
    (inputs : matrix T) : result (matrix T) :=
  match f with
  | Fn_apply_fn units classes =>
      Ok (fully_connected_apply units classes params inputs)
  | _ => Raise TypeError
  end.

(** The three bodies of [loss(preds, targets)]. *)
Definition call_loss (f : pyfun) (preds targets : matrix T) : result T :=
  match f with
  | Fn_loss Mse => Ok (t_mul t_half (jnp_sum (msquare (msub preds targets))))
  | Fn_loss Cross => Ok (t_neg (jnp_sum (mmul (logsoftmax preds) targets)))
  | Fn_loss Cosh => Ok (jnp_sum (mmap t_log (mmap t_cosh (msub preds targets))))
  | _ => Raise TypeError
  end.

(** The three bodies of [loss_params(params, inputs, targets)].  The names
    [apply_fn] and (in the cosh body) [loss] are globals of the module:
    the body receives the outcome of reading them and uses it when it
    reaches the name. *)
Definition call_loss_params (f : pyfun) (apply_fn_global loss_global : result pyfun)
    (params : list (matrix T)) (inputs targets : matrix T) : result T :=
  match f with
  | Fn_loss_params Mse =>
      apply_fn ← apply_fn_global;
      preds ← call_apply_fn apply_fn params inputs;
      Ok (t_mul t_half (jnp_sum (msquare (msub preds targets))))
  | Fn_loss_params Cross =>
      apply_fn ← apply_fn_global;
      preds ← call_apply_fn apply_fn params inputs;
      Ok (t_neg (jnp_sum (mmul (logsoftmax preds) targets)))
  | Fn_loss_params Cosh =>
      apply_fn ← apply_fn_global;
      preds ← call_apply_fn apply_fn params inputs;
      loss ← loss_global;
      call_loss loss preds targets
  | _ => Raise TypeError
  end.

(** *** Hyperparameters *)

Definition cell_hyperparameters (c : config) : stmt (T := T) :=
  (assign "n_train" (λ _, Ok (VInt (cfg_n_train c))) ;;
   assign "dim" (λ _, Ok (VInt (cfg_dim c))) ;;
   assign "widths" (λ _, Ok (VInts (cfg_widths c))) ;;
   assign "classes" (λ _, Ok (VInt (cfg_classes c))) ;;
   assign "bs" (λ _, Ok (VInt (cfg_bs c))) ;;
   assign "all_widths" (λ g,
     dim ← get_int "dim" g;
     widths ← get_ints "widths" g;
     classes ← get_int "classes" g;
     Ok (VInts ([dim] ++ widths ++ [classes]))) ;;
   assign "p" (λ g,
     all_widths ← get_ints "all_widths" g;
     Ok (VInt (py_sum (adjacent_products all_widths)))) ;;
   assign "key" (λ _, Ok (VKey (cfg_seed c))))%stmt.

(** *** Data *)

Definition cell_data (c : config) : stmt (T := T) :=
  (assign "data" (λ g,
     n_train ← get_int "n_train" g;
     dim ← get_int "dim" g;
     classes ← get_int "classes" g;
     let data := get_dataset (cfg_dataset c) n_train 1 dim classes in
     Ok (VData data.1 data.2)) ;;
   assign "train_loader" (λ g,
     '(x, y) ← get_data "data" g;
     bs ← get_int "bs" g;
     Ok (VLoader (DataLoader x y bs))))%stmt.

(** *** Network *)

Definition cell_network (c : config) : stmt (T := T) :=
  (assign "init" (λ _, Ok (VFun (Fn_init (cfg_init c)))) ;;
   assign2 "init_fn" "apply_fn" (λ g,
     widths ← get_ints "widths" g;
     classes ← get_int "classes" g;
     init ← get_fun "init" g;
     match init with
     | Fn_init scheme =>
         Ok (VFun (Fn_init_fn widths classes scheme),
             VFun (Fn_apply_fn widths classes))
     | _ => Raise TypeError
     end) ;;
   assign2 "_" "params" (λ g,
     init_fn ← get_fun "init_fn" g;
     key ← get_key "key" g;
     dim ← get_int "dim" g;
     match init_fn with
     | Fn_init_fn units classes scheme =>
         let out := fully_connected_init units classes scheme key dim in
         Ok (VInts out.1, VMats out.2)
     | _ => Raise TypeError
     end) ;;
   (* [jnp.double] keeps the value of every entry *)
   assign "params" (λ g, params ← get_mats "params" g; Ok (VMats params)))%stmt.

(** *** Loss *)

Definition name_is (x : string) (lit : string) (g : globals T) : result bool :=
  s ← get_str x g; Ok (String.eqb s lit).

Definition cell_loss (c : config) : stmt (T := T) :=
  (assign "loss_name" (λ _, Ok (VStr (cfg_loss_name c))) ;;
   when (name_is "loss_name" "mse")
     (assign "cross" (λ _, Ok (VBool false)) ;;
      assign "loss" (λ _, Ok (VFun (Fn_loss Mse))) ;;
      assign "loss_params" (λ _, Ok (VFun (Fn_loss_params Mse)))) ;;
   when (name_is "loss_name" "cross")
     (assign "cross" (λ _, Ok (VBool true)) ;;
      assign "loss" (λ _, Ok (VFun (Fn_loss Cross))) ;;
      assign "loss_params" (λ _, Ok (VFun (Fn_loss_params Cross)))) ;;
   when (name_is "loss_name" "cosh")
     (assign "cross" (λ _, Ok (VBool false)) ;;
      assign "loss" (λ _, Ok (VFun (Fn_loss Cosh))) ;;
      assign "loss_params" (λ _, Ok (VFun (Fn_loss_params Cosh)))))%stmt.

(** *** Accumulation *)

(** [jnp.zeros(shape=(n, n))] for the int bound to the name [n]. *)
Definition square_zeros (n : string) (g : globals T) : result (value T) :=
  size ← get_int n g; VMat <$> jnp_zeros size size.

Definition init_accumulators : stmt (T := T) :=
  (assign2 "H_L" "H_outer" (λ g,
     a ← square_zeros "p" g; b ← square_zeros "p" g; Ok (a, b)) ;;
   assign "cov" (square_zeros "dim"))%stmt.

Definition loop_body (batch : matrix T * matrix T) : stmt (T := T) :=
  (assign2 "batch_input" "batch_label" (λ _, Ok (VMat batch.1, VMat batch.2)) ;;
   assign2 "batch_input" "batch_label" (λ g,
     batch_input ← get_mat "batch_input" g;
     batch_label ← get_mat "batch_label" g;
     Ok (VMat batch_input, VMat batch_label)) ;;
   assign "cov" (λ g,
     cov ← get_mat "cov" g;
     batch_input ← get_mat "batch_input" g;
     Ok (VMat (madd cov (matmul (transpose batch_input) batch_input)))) ;;
   assign "H_L" (λ g,
     H_L ← get_mat "H_L" g;
     loss_params ← get_fun "loss_params" g;
     params ← get_mats "params" g;
     batch_input ← get_mat "batch_input" g;
     batch_label ← get_mat "batch_label" g;
     Ok (VMat (madd H_L
                 (loss_hessian
                    (call_loss_params loss_params
                       (get_fun "apply_fn" g) (get_fun "loss" g))
                    params batch_input batch_label)))) ;;
   assign "H_outer" (λ g,
     H_outer ← get_mat "H_outer" g;
     loss ← get_fun "loss" g;
     apply_fn ← get_fun "apply_fn" g;
     params ← get_mats "params" g;
     batch_input ← get_mat "batch_input" g;
     batch_label ← get_mat "batch_label" g;
     cross ← get_bool "cross" g;
     Ok (VMat (madd H_outer
                 (outer_prod (call_loss loss) (call_apply_fn apply_fn)
                    params batch_input batch_label cross)))))%stmt.

Definition accumulation_loop : stmt (T := T) :=
  λ g, train_loader ← get_loader "train_loader" g;
       for_each loop_body train_loader g.

Definition functional_hessian : stmt (T := T) :=
  assign "H_F" (λ g,
    H_L ← get_mat "H_L" g;
    H_outer ← get_mat "H_outer" g;
    Ok (VMat (msub H_L H_outer))).

Definition cell_accumulate : stmt (T := T) :=
  (init_accumulators ;; accumulation_loop ;; functional_hessian)%stmt.

(** *** Ranks *)

Definition rank_of (x : string) (g : globals T) : result (value T) :=
  A ← get_mat x g; Ok (VI64 (matrix_rank A)).

Definition cell_ranks : stmt (T := T) :=
  (assign "rank_cov" (rank_of "cov") ;;
   assign "rank_L" (rank_of "H_L") ;;
   assign "rank_outer" (rank_of "H_outer") ;;
   assign "rank_F" (rank_of "H_F"))%stmt.

(** *** Bounds *)

Definition report (what measured predicted : string) (g : globals T)
  : result string :=
  m ← get_i64 measured g;
  pr ← get_i64 predicted g;
  Ok ("Rank of " +:+ what +:+ " is " +:+ pretty m
        +:+ " and the prediction is " +:+ pretty pr).

Definition adjust_classes : stmt (T := T) :=
  when (name_is "loss_name" "cross")
    (assign "classes" (λ g, classes ← get_int "classes" g; Ok (VInt (classes - 1)))).

Definition compute_bounds : stmt (T := T) :=
  (assign "s" (λ g,
     rank_cov ← get_i64 "rank_cov" g;
     classes ← get_int "classes" g;
     VI64 <$> expr_s rank_cov classes) ;;
   assign "q" (λ g,
     rank_cov ← get_i64 "rank_cov" g;
     classes ← get_int "classes" g;
     widths ← get_ints "widths" g;
     VI64 <$> expr_q rank_cov classes widths) ;;
   assign "pred_F" (λ g,
     q ← get_i64 "q" g;
     widths ← get_ints "widths" g;
     s ← get_i64 "s" g;
     VI64 <$> expr_pred_F q s widths) ;;
   assign "pred_outer" (λ g,
     rank_cov ← get_i64 "rank_cov" g;
     classes ← get_int "classes" g;
     q ← get_i64 "q" g;
     VI64 <$> expr_pred_outer rank_cov classes q) ;;
   assign "pred_L" (λ g,
     pred_F ← get_i64 "pred_F" g;
     pred_outer ← get_i64 "pred_outer" g;
     q ← get_i64 "q" g;
     s ← get_i64 "s" g;
     Ok (VI64 (expr_pred_L pred_F pred_outer q s))))%stmt.

Definition print_comparison : stmt (T := T) :=
  (print (report "Functional Hessian" "rank_F" "pred_F") ;;
   print (report "Gradient Outer Product" "rank_outer" "pred_outer") ;;
   print (report "Loss Hessian" "rank_L" "pred_L"))%stmt.

Definition cell_bounds : stmt (T := T) :=
  (adjust_classes ;; compute_bounds ;; print_comparison)%stmt.

(** *** A run of the notebook from an empty namespace *)

Definition setup (c : config) : stmt (T := T) :=
  (cell_hyperparameters c ;; cell_data c ;; cell_network c ;; cell_loss c)%stmt.

Definition measure (c : config) : stmt (T := T) :=
  (setup c ;; cell_accumulate ;; cell_ranks)%stmt.

Definition notebook (c : config) : stmt (T := T) :=
  (measure c ;; cell_bounds)%stmt.

Definition run (c : config) : result (globals T) := notebook c ∅.

(** *** What the cells bind, in closed form

    The values below are read off the cells; the lemmas of the second part
    show that a run binds exactly these. *)

Definition total_params (c : config) : Z :=
  py_sum (adjacent_products ([cfg_dim c] ++ cfg_widths c ++ [cfg_classes c])).

Definition dataset (c : config) : matrix T * matrix T :=
  get_dataset (cfg_dataset c) (cfg_n_train c) 1 (cfg_dim c) (cfg_classes c).

Definition batches (c : config) : list (matrix T * matrix T) :=
  DataLoader (dataset c).1 (dataset c).2 (cfg_bs c).

Definition initial_params (c : config) : list Z * list (matrix T) :=
  fully_connected_init (cfg_widths c) (cfg_classes c) (cfg_init c)
    (cfg_seed c) (cfg_dim c).

Definition the_apply_fn (c : config) : pyfun :=
  Fn_apply_fn (cfg_widths c) (cfg_classes c).

(** The per-batch contributions to the three accumulators. *)
Definition cov_term (b : matrix T * matrix T) : matrix T :=
  matmul (transpose b.1) b.1.

Definition H_L_term (loss_params apply_fn loss : pyfun)
    (params : list (matrix T)) (b : matrix T * matrix T) : matrix T :=
  loss_hessian (call_loss_params loss_params (Ok apply_fn) (Ok loss))
    params b.1 b.2.

Definition H_outer_term (loss apply_fn : pyfun) (params : list (matrix T))
    (cross : bool) (b : matrix T * matrix T) : matrix T :=
  outer_prod (call_loss loss) (call_apply_fn apply_fn) params b.1 b.2 cross.

(** A running sum of contributions. *)
Definition accumulate {B : Type} (term : B → matrix T) (A0 : matrix T)
    (bl : list B) : matrix T :=
  foldl (λ A b, madd A (term b)) A0 bl.

Definition accumulated_cov (c : config) : matrix T :=
  accumulate cov_term (zeros (Z.to_nat (cfg_dim c)) (Z.to_nat (cfg_dim c)))
    (batches c).

Definition accumulated_H_L (c : config) (f : loss_family) : matrix T :=
  accumulate
    (H_L_term (Fn_loss_params f) (the_apply_fn c) (Fn_loss f) (initial_params c).2)
    (zeros (Z.to_nat (total_params c)) (Z.to_nat (total_params c)))
    (batches c).

Definition accumulated_H_outer (c : config) (f : loss_family) : matrix T :=
  accumulate
    (H_outer_term (Fn_loss f) (the_apply_fn c) (initial_params c).2 (is_cross f))
    (zeros (Z.to_nat (total_params c)) (Z.to_nat (total_params c)))
    (batches c).

(** The names bound by the cells that precede the accumulation. *)
Record after_setup (c : config) (g : globals T) : Prop := {
  setup_n_train : g !! "n_train" = Some (VInt (cfg_n_train c));
  setup_dim : g !! "dim" = Some (VInt (cfg_dim c));
  setup_widths : g !! "widths" = Some (VInts (cfg_widths c));
  setup_classes : g !! "classes" = Some (VInt (cfg_classes c));
  setup_bs : g !! "bs" = Some (VInt (cfg_bs c));
  setup_all_widths :
    g !! "all_widths"
    = Some (VInts ([cfg_dim c] ++ cfg_widths c ++ [cfg_classes c]));
  setup_p : g !! "p" = Some (VInt (total_params c));
  setup_key : g !! "key" = Some (VKey (cfg_seed c));
  setup_data : g !! "data" = Some (VData (dataset c).1 (dataset c).2);
  setup_train_loader : g !! "train_loader" = Some (VLoader (batches c));
  setup_apply_fn : g !! "apply_fn" = Some (VFun (the_apply_fn c));
  setup_params : g !! "params" = Some (VMats (initial_params c).2);
  setup_loss_name : g !! "loss_name" = Some (VStr (cfg_loss_name c));
  setup_cross :
    g !! "cross" = (λ f, VBool (is_cross f)) <$> selected (cfg_loss_name c);
  setup_loss :
    g !! "loss" = (λ f, VFun (Fn_loss f)) <$> selected (cfg_loss_name c);
  setup_loss_params :
    g !! "loss_params"
    = (λ f, VFun (Fn_loss_params f)) <$> selected (cfg_loss_name c)
}.

(** The names bound by the accumulation and rank cells, for the loss
    family [f] in force. *)
Record after_measure (c : config) (f : loss_family) (g : globals T) : Prop := {
  measured_cov : g !! "cov" = Some (VMat (accumulated_cov c));
  measured_H_L : g !! "H_L" = Some (VMat (accumulated_H_L c f));
  measured_H_outer : g !! "H_outer" = Some (VMat (accumulated_H_outer c f));
  measured_H_F :
    g !! "H_F"
    = Some (VMat (msub (accumulated_H_L c f) (accumulated_H_outer c f)));
  measured_rank_cov :
    g !! "rank_cov" = Some (VI64 (matrix_rank (accumulated_cov c)));
  measured_rank_L :
    g !! "rank_L" = Some (VI64 (matrix_rank (accumulated_H_L c f)));
  measured_rank_outer :
    g !! "rank_outer" = Some (VI64 (matrix_rank (accumulated_H_outer c f)));
  measured_rank_F :
    g !! "rank_F"
    = Some (VI64 (matrix_rank
                    (msub (accumulated_H_L c f) (accumulated_H_outer c f))))
}.

End Notebook.

(** The three loss functionals as the specification words them, entry by
    entry over the rows of predictions and targets. *)
Section LossSpec.
Context {T : Type} `{!Arith T} `{!LossOps T}.

Definition sum_entries (A : matrix T) : T :=
  foldl (λ acc row, foldl t_add acc row) t_zero A.

Definition half_sum_squared_error (preds targets : matrix T) : T :=
  t_mul t_half
    (sum_entries (zip_with (zip_with (λ p y, t_mul (t_sub p y) (t_sub p y)))
                    preds targets)).

Definition cross_entropy (preds targets : matrix T) : T :=
  t_neg (sum_entries (zip_with (zip_with (λ l y, t_mul l y))
                        (logsoftmax preds) targets)).

Definition sum_log_cosh (preds targets : matrix T) : T :=
  sum_entries (zip_with (zip_with (λ p y, t_log (t_cosh (t_sub p y))))
                 preds targets).

Definition loss_functional (f : loss_family) : matrix T → matrix T → T :=
  match f with
  | Mse => half_sum_squared_error
  | Cross => cross_entropy
  | Cosh => sum_log_cosh
  end.

End LossSpec.

(** ** Entries and symmetry of a matrix *)

Section TensorSpec.
Context {T : Type}.

(** [A[i, j]], when the matrix has this entry. *)
Definition entry (A : matrix T) (i j : nat) : option T :=
  row ← A !! i; row !! j.

(** [A] equals its transpose, entry by entry. *)
Definition is_symmetric (A : matrix T) : Prop :=
  ∀ i j, entry A i j = entry A j i.

End TensorSpec.

(** ** Executing a cell again, and the console *)

Section Rerun.
Context {T : Type}.

(** A cell executed [n] times in a row on the same namespace. *)
Fixpoint rerun (n : nat) (s : stmt (T := T)) : stmt (T := T) :=
  match n with
  | O => λ g, Ok g
  | S n' => (s ;; rerun n' s)%stmt
  end.

(** The lines printed so far. *)
Definition console (g : globals T) : list string :=
  match g !! stdout with
  | Some (VOut ls) => ls
  | _ => []
  end.

End Rerun.

(** ** An integer instance

    Tensors of integers with the usual ring operations satisfy the laws of
    exact arithmetic.  The integers have no logarithm or hyperbolic cosine:
    the loss operations of this instance are stand-ins, and it is used only
    to run the cells on small inputs. *)

Module IntModel.

#[export] Instance Z_arith : Arith Z :=
  {| t_zero := 0; t_add := Z.add; t_sub := Z.sub; t_mul := Z.mul |}.

#[export] Instance Z_loss_ops : LossOps Z :=
  {| t_half := 1; t_neg := Z.opp; t_log := id; t_cosh := id; logsoftmax := id |}.

(** Four samples of dimension one, one sample per batch. *)
Definition samples (name : string) (n_train n_test dim classes : Z)
  : matrix Z * matrix Z :=
  ([[1]; [2]; [3]; [4]], [[1]; [0]; [1]; [0]]).

Definition one_by_one (x y : matrix Z) (bs : Z) : list (matrix Z * matrix Z) :=
  zip (map (λ r, [r]) x) (map (λ r, [r]) y).

(** The same batches, last one first. *)
Definition one_by_one_rev (x y : matrix Z) (bs : Z)
  : list (matrix Z * matrix Z) :=
  reverse (one_by_one x y bs).

Definition hessian_2x2
    (f : list (matrix Z) → matrix Z → matrix Z → result Z)
    (params : list (matrix Z)) (x y : matrix Z) : matrix Z :=
  match f params x y with
  | Ok v => [[v; 1]; [1; v]]
  | Raise _ => [[0; 0]; [0; 0]]
  end.

Definition outer_2x2 (l : matrix Z → matrix Z → result Z)
    (a : list (matrix Z) → matrix Z → result (matrix Z))
    (params : list (matrix Z)) (x y : matrix Z) (cross : bool) : matrix Z :=
  match l x y with
  | Ok v => [[v; 0]; [0; v]]
  | Raise _ => [[0; 0]; [0; 0]]
  end.

#[export] Instance Z_collaborators : Collaborators Z :=
  {| get_dataset := samples;
     DataLoader := one_by_one;
     fully_connected_init := λ units classes scheme key dim,
       ([-1; classes], [[[1]]; [[2]]]);
     fully_connected_apply := λ units classes params inputs, inputs;
     loss_hessian := hessian_2x2;
     outer_prod := outer_2x2;
     (* a stand-in with integer values: the number of rows *)
     matrix_rank := λ A, Z.of_nat (length A) |}.

(** One input dimension, one hidden unit, one class: two parameters. *)
Definition small (loss_name : string) : config :=
  Config 4 1 [1] 1 1 1 "CIFAR" "glorot" loss_name.

(** What the last cell reads in the recorded run: the hyperparameters of
    the notebook, the three ranks it printed, and a covariance of full
    rank. *)
Definition recorded_namespace (loss_name : string) : globals Z :=
  <["rank_L" := VI64 250]> (<["rank_outer" := VI64 150]>
  (<["rank_F" := VI64 175]> (<["widths" := VInts [5; 10]]>
  (<["classes" := VInt 10]> (<["rank_cov" := VI64 25]>
  (<["loss_name" := VStr loss_name]> ∅)))))).

(** The same with the cross-entropy loss selected. *)
Definition cross_namespace : globals Z := recorded_namespace "cross".

(** The three lines of output kept in the notebook. *)
Definition recorded_output : list string :=
  ["Rank of Functional Hessian is 175 and the prediction is 175";
   "Rank of Gradient Outer Product is 150 and the prediction is 150";
   "Rank of Loss Hessian is 250 and the prediction is 250"].

(** A loader that yields no batch. *)
Definition no_batches (x y : matrix Z) (bs : Z) : list (matrix Z * matrix Z) :=
  [].

(** The recorded namespace with other measured Hessian ranks. *)
Definition other_ranks_namespace : globals Z :=
  <["rank_L" := VI64 1]> (<["rank_outer" := VI64 2]>
  (<["rank_F" := VI64 3]> (recorded_namespace "mse"))).

(** A namespace whose parameter count is negative. *)
Definition negative_size_namespace : globals Z :=
  <["dim" := VInt 1]> (<["p" := VInt (-1)]> ∅).

(** The recorded namespace after the two lines that the data cell of the
    recorded run left on the console. *)
Definition downloaded_namespace : globals Z :=
  <[stdout := VOut ["Files already downloaded and verified";
                    "Files already downloaded and verified"]]>
    (recorded_namespace "mse").

End IntModel.

(** ** The float64 instance

    The scalars of the notebook are IEEE binary64 numbers: the hardware
    floats of the kernel with their addition, subtraction and
    multiplication.  Their addition is not associative, so this instance
    does not satisfy the laws of exact arithmetic.  It has no logarithm or
    hyperbolic cosine: these loss operations are stand-ins, which a run
    with the squared error does not use. *)

Module FloatModel.

#[export] Instance float_arith : Arith float :=
  {| t_zero := 0%float; t_add := PrimFloat.add; t_sub := PrimFloat.sub;
     t_mul := PrimFloat.mul |}.

#[export] Instance float_loss_ops : LossOps float :=
  {| t_half := 0.5%float; t_neg := PrimFloat.opp; t_log := id; t_cosh := id;
     logsoftmax := id |}.

(** Three samples of dimension one: [1e8], [1] and [1]. *)
Definition three_samples (name : string) (n_train n_test dim classes : Z)
  : matrix float * matrix float :=
  ([[1e8]; [1]; [1]]%float, [[0]; [0]; [0]]%float).

(** Batches of size one, in the order of the dataset. *)
Definition sample_by_sample (x y : matrix float) (bs : Z)
  : list (matrix float * matrix float) :=
  zip (map (λ r, [r]) x) (map (λ r, [r]) y).

(** The same batches, last one first. *)
Definition sample_by_sample_rev (x y : matrix float) (bs : Z)
  : list (matrix float * matrix float) :=
  reverse (sample_by_sample x y bs).

#[export] Instance float_collaborators : Collaborators float :=
  {| get_dataset := three_samples;
     DataLoader := sample_by_sample;
     fully_connected_init := λ units classes scheme key dim,
       ([-1; classes], [[[1%float]]]);
     fully_connected_apply := λ units classes params inputs, inputs;
     loss_hessian := λ f params x y, [[0%float]];
     outer_prod := λ l a params x y cross, [[0%float]];
     (* a stand-in with integer values: the number of rows *)
     matrix_rank := λ A, Z.of_nat (length A) |}.

(** Three samples, one input dimension, no hidden layer, one class, batch
    size one: one parameter. *)
Definition linear_model : config :=
  Config 3 1 [] 1 1 1 "CIFAR" "glorot" "mse".

End FloatModel.

(** * Properties *)

(** ** 64-bit arithmetic *)

Module Int64Facts.
Import Int64.

Lemma in_range_spec z : in_range z = true ↔ min_int ≤ z ≤ max_int.
Proof. unfold in_range. rewrite andb_true_iff, !Z.leb_le. tauto. Qed.

Lemma wrap_id z : in_range z = true → wrap z = z.
Proof.
  rewrite in_range_spec. unfold wrap, modulus, min_int, max_int. intros Hz.
  rewrite Z.mod_small; lia.
Qed.

Lemma wrap_mod z : wrap z mod modulus = z mod modulus.
Proof.
  unfold wrap, modulus.
  rewrite Zminus_mod, Zmod_mod, <- Zminus_mod. f_equal. lia.
Qed.

Lemma wrap_congr a b : eqm modulus a b → wrap a = wrap b.
Proof.
  unfold wrap, eqm. intros Hab.
  rewrite (Zplus_mod a), (Zplus_mod b), Hab. reflexivity.
Qed.

Lemma wrap_in_range z : in_range (wrap z) = true.
Proof.
  apply in_range_spec. unfold wrap, modulus, min_int, max_int.
  pose proof (Z.mod_pos_bound (z + 2 ^ 63) (2 ^ 64)). lia.
Qed.

Lemma wrap_eqm z : eqm modulus (wrap z) z.
Proof. apply wrap_mod. Qed.

(** Congruence modulo [2^64] is compatible with the ring operations and
    with [wrap]. *)
#[export] Instance eqm_modulus_equiv : Equivalence (eqm modulus) :=
  eqm_setoid modulus.
#[export] Instance eqm_modulus_add :
  Proper (eqm modulus ==> eqm modulus ==> eqm modulus) Z.add :=
  Zplus_eqm modulus.
#[export] Instance eqm_modulus_sub :
  Proper (eqm modulus ==> eqm modulus ==> eqm modulus) Z.sub :=
  Zminus_eqm modulus.
#[export] Instance eqm_modulus_mul :
  Proper (eqm modulus ==> eqm modulus ==> eqm modulus) Z.mul :=
  Zmult_eqm modulus.
#[export] Instance eqm_modulus_wrap : Proper (eqm modulus ==> eqm modulus) wrap.
Proof. intros a b Hab. by rewrite (wrap_congr a b Hab). Qed.

Lemma of_int_ok z : in_range z = true → of_int z = Ok z.
Proof. unfold of_int. by intros ->. Qed.

Lemma of_int_inv z z' : of_int z = Ok z' → z' = z ∧ in_range z = true.
Proof. unfold of_int. destruct (in_range z); naive_solver. Qed.

End Int64Facts.
Export (hints) Int64Facts.

(** Equations between wrapped polynomials: compare modulo [2^64]. *)
Ltac push_wrap :=
  unfold Int64.add, Int64.sub, Int64.mul, Int64.pow;
  apply Int64Facts.wrap_congr;
  repeat rewrite Int64Facts.wrap_eqm;
  apply (f_equal (λ z, z mod Int64.modulus)).

(** ** The bound formulas *)

Lemma jnp_array_ok l :
  Forall (λ z, Int64.in_range z = true) l → jnp_array l = Ok l.
Proof.
  unfold jnp_array. induction 1 as [|z l Hz _ IH]; [done|].
  cbn. rewrite (Int64Facts.of_int_ok z Hz). cbn. by rewrite IH.
Qed.

Lemma jnp_array_inv l a :
  jnp_array l = Ok a → a = l ∧ Forall (λ z, Int64.in_range z = true) l.
Proof.
  unfold jnp_array. revert a. induction l as [|z l IH]; intros a; cbn.
  - intros [= <-]. auto.
  - destruct (Int64.of_int z) as [z'|] eqn:Hz; cbn; [|done].
    apply Int64Facts.of_int_inv in Hz as [-> Hz].
    destruct (mapR Int64.of_int l) as [a'|] eqn:Hl; cbn; [|done].
    intros [= <-]. destruct (IH a' eq_refl) as [-> Hall]. auto.
Qed.

Lemma foldl_min_le (l : list Z) x : foldl Z.min x l ≤ x.
Proof.
  revert x. induction l as [|y l IH]; intros x; cbn; [lia|].
  specialize (IH (Z.min x y)). lia.
Qed.

Lemma foldl_min_lower (l : list Z) x y : y ∈ l → foldl Z.min x l ≤ y.
Proof.
  revert x. induction l as [|z l IH]; intros x; [by intros ?%elem_of_nil|].
  intros [->|Hy]%elem_of_cons; cbn.
  - pose proof (foldl_min_le l (Z.min x z)). lia.
  - by apply IH.
Qed.

Lemma foldl_min_elem (l : list Z) x : foldl Z.min x l ∈ x :: l.
Proof.
  revert x. induction l as [|z l IH]; intros x; cbn; [apply list_elem_of_here|].
  specialize (IH (Z.min x z)). apply elem_of_cons in IH as [IH|IH].
  - rewrite IH. destruct (Z.min_spec x z) as [[_ ->]|[_ ->]].
    + apply list_elem_of_here.
    + apply list_elem_of_further, list_elem_of_here.
  - by do 2 apply list_elem_of_further.
Qed.

(** [min_all r k widths] is the least of [r], [k] and the hidden widths. *)
Lemma min_all_least r k ws :
  min_all r k ws ∈ r :: k :: ws ∧ ∀ x, x ∈ r :: k :: ws → min_all r k ws ≤ x.
Proof.
  unfold min_all. split; [apply foldl_min_elem|].
  intros x [->|Hx]%elem_of_cons; [apply foldl_min_le | by apply foldl_min_lower].
Qed.

Lemma expr_s_ok r k :
  Int64.in_range r = true → Int64.in_range k = true → expr_s r k = Ok (Z.min r k).
Proof.
  intros Hr Hk. unfold expr_s. rewrite jnp_array_ok by (repeat constructor; done). done.
Qed.

Lemma expr_q_ok r k ws :
  Int64.in_range r = true → Int64.in_range k = true →
  Forall (λ z, Int64.in_range z = true) ws →
  expr_q r k ws = Ok (min_all r k ws).
Proof.
  intros Hr Hk Hws. unfold expr_q.
  rewrite jnp_array_ok by (cbn; repeat constructor; done). done.
Qed.

Lemma expr_pred_F_wrap q s ws :
  Int64.in_range (py_sum ws) = true → Int64.in_range (py_len ws + 1) = true →
  expr_pred_F q s ws = Ok (Int64.wrap (ideal_F q s ws)).
Proof.
  intros Hs Hn. unfold expr_pred_F.
  rewrite (Int64Facts.of_int_ok _ Hs), (Int64Facts.of_int_ok _ Hn). cbn.
  f_equal. push_wrap. unfold ideal_F. lia.
Qed.

Lemma expr_pred_outer_wrap r k q :
  Int64.in_range k = true →
  expr_pred_outer r k q = Ok (Int64.wrap (ideal_outer r k q)).
Proof.
  intros Hk. unfold expr_pred_outer. rewrite (Int64Facts.of_int_ok _ Hk). cbn.
  f_equal. push_wrap. unfold ideal_outer. lia.
Qed.

Lemma expr_pred_L_wrap F O q s :
  expr_pred_L (Int64.wrap F) (Int64.wrap O) q s
  = Int64.wrap (F + O + q * (q - 2 * s)).
Proof. unfold expr_pred_L. push_wrap. lia. Qed.

Lemma ideal_L_closed r k q s ws : ideal_L r k q s ws = closed_L r k q ws.
Proof. unfold ideal_L, closed_L, ideal_F, ideal_outer. lia. Qed.

(** Whatever the sizes, the cell computes the formulas modulo [2^64]. *)
Lemma bounds_wrap r k ws :
  Int64.in_range r = true → Int64.in_range k = true →
  Forall (λ z, Int64.in_range z = true) ws →
  Int64.in_range (py_sum ws) = true → Int64.in_range (py_len ws + 1) = true →
  let s := Z.min r k in
  let q := min_all r k ws in
  bounds r k ws
  = Ok (Prediction s q (Int64.wrap (ideal_F q s ws))
          (Int64.wrap (ideal_outer r k q)) (Int64.wrap (ideal_L r k q s ws))).
Proof.
  intros Hr Hk Hws Hsum Hlen s q. unfold bounds.
  rewrite expr_s_ok, expr_q_ok by done. cbn.
  rewrite expr_pred_F_wrap, expr_pred_outer_wrap by done. cbn.
  by rewrite expr_pred_L_wrap.
Qed.

(** When the three predictions are 64-bit integers nothing wraps. *)
Lemma bounds_exact r k ws :
  let s := Z.min r k in
  let q := min_all r k ws in
  let pred_F := 2 * q * py_sum ws + 2 * q * s - (py_len ws + 1) * q ^ 2 in
  let pred_outer := q * (r + k - q) in
  let pred_L := pred_F + pred_outer + q * (q - 2 * s) in
  Int64.in_range r = true → Int64.in_range k = true →
  Forall (λ z, Int64.in_range z = true) ws →
  Int64.in_range (py_sum ws) = true → Int64.in_range (py_len ws + 1) = true →
  (q ∈ r :: k :: ws ∧ ∀ x, x ∈ r :: k :: ws → q ≤ x)
  ∧ (Int64.in_range pred_F = true → Int64.in_range pred_outer = true →
     Int64.in_range pred_L = true →
     bounds r k ws
     = Ok {| val_s := s; val_q := q; val_pred_F := pred_F;
             val_pred_outer := pred_outer; val_pred_L := pred_L |}).
Proof.
  intros s q pF pO pL Hr Hk Hws Hsum Hlen.
  split; [apply min_all_least|].
  rewrite bounds_wrap by done. fold s q. unfold ideal_L, ideal_F, ideal_outer.
  fold pF pO pL. intros HF HO HL. by rewrite !Int64Facts.wrap_id by done.
Qed.

(** C1.  Given the covariance rank [r], the class count [k] and the hidden
    widths, the last cell computes [s = min(r, k)], [q] the least of [r],
    [k] and the hidden widths, and the three predictions
    [pred_outer = q (r + k - q)],
    [pred_F = 2 q sum(widths) + 2 q s - (len(widths) + 1) q^2] and
    [pred_L = pred_F + pred_outer + q (q - 2 s)]: in 64-bit arithmetic in
    every case, and as these very integers when they are 64-bit integers. *)
Theorem bounds_formulas r k ws :
  let s := Z.min r k in
  let q := min_all r k ws in
  let pred_F := 2 * q * py_sum ws + 2 * q * s - (py_len ws + 1) * q ^ 2 in
  let pred_outer := q * (r + k - q) in
  let pred_L := pred_F + pred_outer + q * (q - 2 * s) in
  Int64.in_range r = true → Int64.in_range k = true →
  Forall (λ z, Int64.in_range z = true) ws →
  Int64.in_range (py_sum ws) = true → Int64.in_range (py_len ws + 1) = true →
  (q ∈ r :: k :: ws ∧ ∀ x, x ∈ r :: k :: ws → q ≤ x)
  ∧ bounds r k ws
    = Ok {| val_s := s; val_q := q;
            val_pred_F := Int64.wrap pred_F;
            val_pred_outer := Int64.wrap pred_outer;
            val_pred_L := Int64.wrap pred_L |}
  ∧ (Int64.in_range pred_F = true → Int64.in_range pred_outer = true →
     Int64.in_range pred_L = true →
     bounds r k ws
     = Ok {| val_s := s; val_q := q; val_pred_F := pred_F;
             val_pred_outer := pred_outer; val_pred_L := pred_L |}).
Proof.
  intros s q pF pO pL Hr Hk Hws Hsum Hlen.
  destruct (bounds_exact r k ws Hr Hk Hws Hsum Hlen) as [Hmin Hexact].
  split; [exact Hmin|]. split; [|exact Hexact].
  rewrite bounds_wrap by done. reflexivity.
Qed.

Lemma bounds_formulas_witness :
  bounds 25 10 [5; 10] = Ok (Prediction 10 5 175 150 250).
Proof.
  apply (bounds_formulas 25 10 [5; 10]); try reflexivity.
  repeat constructor.
Defined.

(** ** The sizes of a network

    The parameter count [p] is the sum of the products of adjacent widths.
    Every operand of the bounds, and every product of the least width [q]
    with one of them, is at most [p]. *)

Lemma foldl_add_shift (l : list Z) a : foldl Z.add a l = a + foldl Z.add 0 l.
Proof.
  revert a. induction l as [|x l IH]; intros a; cbn; [lia|].
  rewrite (IH (a + x)), (IH (0 + x)). lia.
Qed.

Lemma py_sum_cons x l : py_sum (x :: l) = x + py_sum l.
Proof. unfold py_sum. cbn. apply foldl_add_shift. Qed.

Lemma adjacent_products_cons a b l :
  adjacent_products (a :: b :: l) = a * b :: adjacent_products (b :: l).
Proof.
  unfold adjacent_products. cbn [length]. 
  replace (S (S (length l)) - 1)%nat with (S (length l)) by lia.
  replace (S (length l) - 1)%nat with (length l) by lia.
  cbn [seq fmap list_fmap]. f_equal.
  rewrite <- fmap_S_seq, <- list_fmap_compose. done.
Qed.

Lemma layer_bounds q ws : ∀ a k0,
  0 ≤ q → q ≤ a → q ≤ k0 → Forall (λ m, q ≤ m) ws →
  let f := py_sum (adjacent_products (a :: ws ++ [k0])) in
  q * py_sum ws ≤ f ∧ (py_len ws + 1) * q ^ 2 ≤ f ∧ q * k0 ≤ f ∧ q * a ≤ f
  ∧ 0 ≤ f.
Proof.
  induction ws as [|m ws IH]; intros a k0 Hq Ha Hk Hws f.
  - subst f. cbn. unfold py_sum, py_len; cbn. nia.
  - apply Forall_cons in Hws as [Hm Hws].
    destruct (IH m k0 Hq Hm Hk Hws) as (I1 & I2 & I3 & I4 & I5).
    subst f. cbn [app]. rewrite adjacent_products_cons, !py_sum_cons.
    unfold py_len in *. cbn [length]. rewrite Nat2Z.inj_succ.
    set (f' := py_sum (adjacent_products (m :: ws ++ [k0]))) in *.
    nia.
Qed.

Lemma py_sum_upper (l : list Z) m :
  Forall (λ x, 0 ≤ x) l → m ∈ l → m ≤ py_sum l.
Proof.
  induction 1 as [|x l Hx Hl IH]; [by intros ?%elem_of_nil|].
  rewrite py_sum_cons.
  assert (0 ≤ py_sum l).
  { clear IH. induction Hl; [done|]. rewrite py_sum_cons. lia. }
  intros [->|Hm]%elem_of_cons; [lia|]. specialize (IH Hm). lia.
Qed.

Lemma in_range_small z : - 2 ^ 63 ≤ z < 2 ^ 63 → Int64.in_range z = true.
Proof.
  intros Hz. apply Int64Facts.in_range_spec.
  unfold Int64.min_int, Int64.max_int. lia.
Qed.

(** For the sizes of a network with fewer than [2^61] parameters nothing
    wraps: the operands and the three predictions lie between [-p] and
    [4 p], for [p] the number of parameters. *)
Lemma bounds_exact_for_networks d k0 ws r k :
  1 ≤ d → 1 ≤ k0 → Forall (λ m, 1 ≤ m) ws → 0 ≤ r ≤ d → 0 ≤ k ≤ k0 →
  py_sum (adjacent_products ([d] ++ ws ++ [k0])) < 2 ^ 61 →
  let s := Z.min r k in
  let q := min_all r k ws in
  bounds r k ws
  = Ok {| val_s := s; val_q := q;
          val_pred_F := 2 * q * py_sum ws + 2 * q * s - (py_len ws + 1) * q ^ 2;
          val_pred_outer := q * (r + k - q);
          val_pred_L :=
            2 * q * py_sum ws + 2 * q * s - (py_len ws + 1) * q ^ 2
            + q * (r + k - q) + q * (q - 2 * s) |}.
Proof.
  intros Hd Hk0 Hws Hr Hk Hp s q. cbn [app] in Hp.
  destruct (min_all_least r k ws) as [Hq_in Hq_le]. fold q in Hq_in, Hq_le.
  assert (0 ≤ q).
  { apply elem_of_cons in Hq_in as [->|Hq_in]; [lia|].
    apply elem_of_cons in Hq_in as [->|Hq_in]; [lia|].
    pose proof (proj1 (Forall_forall _ _) Hws q Hq_in) as Hq1. cbv beta in Hq1.
    lia. }
  assert (q ≤ r) by (apply Hq_le, list_elem_of_here).
  assert (q ≤ k) by (apply Hq_le, list_elem_of_further, list_elem_of_here).
  assert (Forall (λ m, q ≤ m) ws) as Hq_ws.
  { apply Forall_forall. intros m Hm.
    by apply Hq_le, list_elem_of_further, list_elem_of_further. }
  assert (q ≤ s ∧ s ≤ r ∧ s ≤ k) as (? & ? & ?) by (subst s; lia).
  pose proof (layer_bounds 1 ws d k0) as U. cbv zeta in U.
  pose proof (layer_bounds q ws d k0) as V. cbv zeta in V.
  set (p := py_sum (adjacent_products (d :: ws ++ [k0]))) in *.
  destruct U as (U1 & U2 & U3 & U4 & U5); [lia|lia|lia|done|].
  destruct V as (V1 & V2 & V3 & V4 & _); [lia|lia|lia|done|].
  assert (py_sum ws ≤ p ∧ py_len ws + 1 ≤ p ∧ k0 ≤ p ∧ d ≤ p)
    as (W1 & W2 & W3 & W4) by (clearbody p s q; lia).
  assert (0 ≤ py_len ws) by (unfold py_len; lia).
  assert (0 ≤ py_sum ws).
  { clear -Hws. induction Hws as [|x l Hx _ IH]; [done|].
    rewrite py_sum_cons. lia. }
  assert (Forall (λ z, Int64.in_range z = true) ws) as Hin.
  { apply Forall_forall. intros m Hm. apply in_range_small.
    pose proof (proj1 (Forall_forall _ _) Hws m Hm) as Hm1. cbv beta in Hm1.
    assert (m ≤ py_sum ws); [|clearbody p s q; lia].
    apply py_sum_upper; [|done]. eapply Forall_impl; [exact Hws|].
    cbv beta. lia. }
  destruct (bounds_exact r k ws) as [_ Hex];
    [apply in_range_small; clearbody p s q; lia
    |apply in_range_small; clearbody p s q; lia
    |done
    |apply in_range_small; clearbody p s q; lia
    |apply in_range_small; clearbody p s q; lia|].
  cbv zeta in Hex. fold s q in Hex.
  assert (0 ≤ q * py_sum ws) by (apply Z.mul_nonneg_nonneg; lia).
  assert (0 ≤ q * s ≤ p) as [? ?].
  { split; [apply Z.mul_nonneg_nonneg; lia|].
    etrans; [apply (Z.mul_le_mono_nonneg_l s k0 q); lia|done]. }
  assert (0 ≤ q * r ≤ p) as [? ?].
  { split; [apply Z.mul_nonneg_nonneg; lia|].
    etrans; [apply (Z.mul_le_mono_nonneg_l r d q); lia|done]. }
  assert (0 ≤ q * k ≤ p) as [? ?].
  { split; [apply Z.mul_nonneg_nonneg; lia|].
    etrans; [apply (Z.mul_le_mono_nonneg_l k k0 q); lia|done]. }
  assert (0 ≤ q ^ 2 ≤ q * r) as [? ?].
  { rewrite Z.pow_2_r. split; [apply Z.mul_nonneg_nonneg; lia|].
    apply Z.mul_le_mono_nonneg_l; lia. }
  assert (0 ≤ (py_len ws + 1) * q ^ 2) by (apply Z.mul_nonneg_nonneg; lia).
  clearbody p s q.
  apply Hex; apply in_range_small; lia.
Qed.

(** ** Running statements symbolically *)

Ltac solve_lookup :=
  repeat first
    [ rewrite lookup_insert_eq
    | rewrite lookup_insert_ne by done
    | rewrite lookup_empty
    | match goal with
      | H : ?g !! ?x = _ |- context [?g !! ?x] => rewrite H
      end ].

Ltac exec :=
  repeat progress (
    cbn [mbind result_bind mret result_ret fmap result_fmap fst snd];
    unfold then_, assign, assign2, when, print, name_is,
      get_int, get_ints, get_str, get_bool, get_key, get_i64, get_mat,
      get_mats, get_data, get_loader, get_fun, get;
    solve_lookup).

(** Membership of a name in a list of literal names. *)
Ltac solve_names :=
  intros;
  rewrite ?elem_of_app, ?elem_of_cons, ?elem_of_nil in *;
  first [ tauto | intuition congruence | intuition discriminate ].

(** ** Which names a statement writes *)

Section Frames.
Context {T : Type}.
Implicit Types (s : stmt (T := T)) (X : list string).

Lemma modifies_weaken s X Y :
  modifies s X → (∀ x, x ∈ X → x ∈ Y) → modifies s Y.
Proof. intros Hs HXY g g' Hg x Hx. apply (Hs g g' Hg). auto. Qed.

Lemma modifies_assign x e : modifies (T := T) (assign x e) [x].
Proof.
  intros g g' Hg y Hy. unfold assign in Hg.
  destruct (e g) as [v|]; [|done]. injection Hg as <-.
  apply lookup_insert_ne. solve_names.
Qed.

Lemma modifies_assign2 x y e : modifies (T := T) (assign2 x y e) [x; y].
Proof.
  intros g g' Hg z Hz. unfold assign2 in Hg.
  destruct (e g) as [v|]; [|done]. injection Hg as <-.
  rewrite !lookup_insert_ne; [done|solve_names..].
Qed.

Lemma modifies_print e : modifies (T := T) (print e) [stdout].
Proof.
  intros g g' Hg y Hy. unfold print in Hg.
  destruct (e g) as [v|]; [|done]. injection Hg as <-.
  apply lookup_insert_ne. solve_names.
Qed.

Lemma modifies_then s1 s2 X1 X2 :
  modifies s1 X1 → modifies s2 X2 → modifies (s1 ;; s2)%stmt (X1 ++ X2).
Proof.
  intros H1 H2 g g' Hg x Hx. unfold then_ in Hg.
  destruct (s1 g) as [g1|] eqn:Hg1; [|done]. cbn in Hg.
  rewrite (H2 g1 g' Hg), (H1 g g1 Hg1); [done|solve_names..].
Qed.

Lemma modifies_when c s X : modifies s X → modifies (when c s) X.
Proof.
  intros Hs g g' Hg x Hx. unfold when in Hg.
  destruct (c g) as [[]|]; cbn in Hg; [by eapply Hs| |done].
  by injection Hg as <-.
Qed.

Lemma modifies_for_each {B} (body : B → stmt (T := T)) l X :
  (∀ b, modifies (body b) X) → modifies (for_each body l) X.
Proof.
  intros Hb. induction l as [|b l IH]; intros g g' Hg x Hx; cbn in Hg.
  - by injection Hg as <-.
  - destruct (body b g) as [g1|] eqn:Hg1; [|done]. cbn in Hg.
    rewrite (IH g1 g' Hg x Hx). by eapply Hb.
Qed.

End Frames.

Ltac modifies_step :=
  first
    [ apply modifies_then
    | apply modifies_assign
    | apply modifies_assign2
    | apply modifies_print
    | apply modifies_when
    | apply modifies_for_each; intros ? ].

Ltac solve_modifies :=
  eapply modifies_weaken; [repeat modifies_step | solve_names].

(** ** The cells, one by one *)

Ltac use_frame :=
  match goal with
  | Hf : ∀ x, x ∉ ?X → ?g' !! x = ?g !! x |- context [?g' !! ?y] =>
      rewrite (Hf y) by solve_names
  end.

Ltac lookups := repeat first [progress solve_lookup | use_frame].

Lemma selected_cases name :
  (name = "mse" ∧ selected name = Some Mse)
  ∨ (name = "cross" ∧ selected name = Some Cross)
  ∨ (name = "cosh" ∧ selected name = Some Cosh)
  ∨ (String.eqb name "mse" = false ∧ String.eqb name "cross" = false
     ∧ String.eqb name "cosh" = false ∧ selected name = None).
Proof.
  unfold selected.
  destruct (String.eqb_spec name "mse") as [->|_]; [by left|].
  destruct (String.eqb_spec name "cross") as [->|_]; [by right; left|].
  destruct (String.eqb_spec name "cosh") as [->|_]; [by right; right; left|].
  by right; right; right.
Qed.

Section Cells.
Context {T : Type} `{!Arith T} `{!LossOps T} `{!Collaborators T}.

Lemma setup_spec c : ∃ g0, setup c ∅ = Ok g0 ∧ after_setup c g0.
Proof.
  unfold setup, cell_hyperparameters, cell_data, cell_network, cell_loss.
  exec.
  destruct (selected_cases (cfg_loss_name c))
    as [[Hn Hs]|[[Hn Hs]|[[Hn Hs]|(Hn1 & Hn2 & Hn3 & Hs)]]].
  1-3: rewrite Hn; cbn [String.eqb Ascii.eqb Bool.eqb]; exec.
  4: rewrite Hn1; exec; rewrite Hn2; exec; rewrite Hn3; exec.
  all: eexists; split; [done|].
  all: split; rewrite ?Hs; solve_lookup; try done.
  all: by rewrite Hn.
Qed.

#[local] Abbreviation loop_names :=
  ["batch_input"; "batch_label"; "cov"; "H_L"; "H_outer"].

Lemma loop_body_modifies b : modifies (loop_body b) loop_names.
Proof. unfold loop_body. solve_modifies. Qed.

Lemma loop_body_spec b (g : globals T) cov HL HO lp lf af ps cr :
  g !! "cov" = Some (VMat cov) → g !! "H_L" = Some (VMat HL) →
  g !! "H_outer" = Some (VMat HO) →
  g !! "loss_params" = Some (VFun lp) → g !! "loss" = Some (VFun lf) →
  g !! "apply_fn" = Some (VFun af) → g !! "params" = Some (VMats ps) →
  g !! "cross" = Some (VBool cr) →
  ∃ g', loop_body b g = Ok g'
    ∧ g' !! "cov" = Some (VMat (madd cov (cov_term b)))
    ∧ g' !! "H_L" = Some (VMat (madd HL (H_L_term lp af lf ps b)))
    ∧ g' !! "H_outer" = Some (VMat (madd HO (H_outer_term lf af ps cr b)))
    ∧ ∀ x, x ∉ loop_names → g' !! x = g !! x.
Proof.
  intros Hcov HHL HHO Hlp Hlf Haf Hps Hcr. unfold loop_body. exec.
  eexists. split; [done|]. solve_lookup. do 3 (split; [done|]).
  intros x Hx. rewrite !lookup_insert_ne; [done|solve_names..].
Qed.

Lemma loop_bound bl : ∀ (g : globals T) cov HL HO lp lf af ps cr,
  g !! "cov" = Some (VMat cov) → g !! "H_L" = Some (VMat HL) →
  g !! "H_outer" = Some (VMat HO) →
  g !! "loss_params" = Some (VFun lp) → g !! "loss" = Some (VFun lf) →
  g !! "apply_fn" = Some (VFun af) → g !! "params" = Some (VMats ps) →
  g !! "cross" = Some (VBool cr) →
  ∃ g', for_each loop_body bl g = Ok g'
    ∧ g' !! "cov" = Some (VMat (accumulate cov_term cov bl))
    ∧ g' !! "H_L" = Some (VMat (accumulate (H_L_term lp af lf ps) HL bl))
    ∧ g' !! "H_outer" = Some (VMat (accumulate (H_outer_term lf af ps cr) HO bl))
    ∧ ∀ x, x ∉ loop_names → g' !! x = g !! x.
Proof.
  induction bl as [|b bl IH]; intros g cov HL HO lp lf af ps cr Hcov HHL HHO Hlp Hlf Haf Hps Hcr.
  - exists g. cbn. auto 10.
  - destruct (loop_body_spec b g _ _ _ _ _ _ _ _ Hcov HHL HHO Hlp Hlf Haf Hps Hcr)
      as (g1 & Hg1 & Hc1 & HL1 & HO1 & Hfr1).
    cbn [for_each]. rewrite Hg1. cbn [mbind result_bind].
    edestruct (IH g1) as (g' & -> & Hc' & HL' & HO' & Hfr);
      [eassumption..|rewrite Hfr1 by solve_names; eassumption
                    |rewrite Hfr1 by solve_names; eassumption
                    |rewrite Hfr1 by solve_names; eassumption
                    |rewrite Hfr1 by solve_names; eassumption
                    |rewrite Hfr1 by solve_names; eassumption|].
    exists g'. split; [done|]. split; [exact Hc'|]. split; [exact HL'|]. split; [exact HO'|].
    intros x Hx. by rewrite Hfr, Hfr1.
Qed.

Lemma loop_unbound b bl (g : globals T) cov HL :
  g !! "cov" = Some (VMat cov) → g !! "H_L" = Some (VMat HL) →
  g !! "loss_params" = None →
  for_each loop_body (b :: bl) g = Raise (NameError "loss_params").
Proof.
  intros Hcov HHL Hlp.
  assert (loop_body b g = Raise (NameError "loss_params")) as Hb
    by (unfold loop_body; exec; done).
  cbn [for_each]. by rewrite Hb.
Qed.

#[local] Abbreviation accumulate_names :=
  ["H_L"; "H_outer"; "cov"; "batch_input"; "batch_label"; "H_F"].

Lemma cell_accumulate_modifies :
  modifies (T := T) cell_accumulate accumulate_names.
Proof.
  unfold cell_accumulate.
  assert (modifies (T := T) accumulation_loop loop_names) as Hloop.
  { intros g g' Hg. unfold accumulation_loop in Hg.
    destruct (get_loader "train_loader" g) as [bl|]; [|done]. cbn in Hg.
    revert g g' Hg. apply modifies_for_each, loop_body_modifies. }
  unfold init_accumulators, functional_hessian.
  eapply modifies_weaken; [repeat first [modifies_step | exact Hloop]|solve_names].
Qed.

Lemma cell_ranks_modifies :
  modifies (T := T) cell_ranks ["rank_cov"; "rank_L"; "rank_outer"; "rank_F"].
Proof. unfold cell_ranks. solve_modifies. Qed.

Lemma cell_bounds_modifies :
  modifies (T := T) cell_bounds
    ["classes"; "s"; "q"; "pred_F"; "pred_outer"; "pred_L"; stdout].
Proof.
  unfold cell_bounds, adjust_classes, compute_bounds, print_comparison.
  solve_modifies.
Qed.

(** The accumulation cell on the namespace left by the cells before it. *)
Lemma cell_accumulate_inv c (g0 g2 : globals T) :
  after_setup c g0 → cell_accumulate g0 = Ok g2 →
  ∃ f, (selected (cfg_loss_name c) = Some f
        ∨ selected (cfg_loss_name c) = None ∧ batches c = [])
    ∧ 0 ≤ total_params c ∧ 0 ≤ cfg_dim c
    ∧ g2 !! "cov" = Some (VMat (accumulated_cov c))
    ∧ g2 !! "H_L" = Some (VMat (accumulated_H_L c f))
    ∧ g2 !! "H_outer" = Some (VMat (accumulated_H_outer c f))
    ∧ g2 !! "H_F"
      = Some (VMat (msub (accumulated_H_L c f) (accumulated_H_outer c f))).
Proof.
  intros [] Hrun. revert Hrun.
  unfold cell_accumulate, init_accumulators, square_zeros,
    accumulation_loop, functional_hessian, jnp_zeros.
  exec.
  destruct (Z.ltb_spec (total_params c) 0) as [|Hp]; cbn; [done|]. exec.
  destruct (Z.ltb_spec (cfg_dim c) 0) as [|Hd]; cbn; [done|]. exec.
  unfold accumulated_cov, accumulated_H_L, accumulated_H_outer.
  destruct (selected (cfg_loss_name c)) as [f|] eqn:Hsel; cbn in *.
  - match goal with
    | |- context [for_each loop_body ?bl ?g] =>
        edestruct (loop_bound bl g) as (g' & -> & Hc' & HL' & HO' & Hfr);
          [solve_lookup; reflexivity..|]
    end.
    exec. intros [= <-]. exists f. solve_lookup. auto 10.
  - destruct (batches c) as [|b bl] eqn:Hb.
    + cbn [for_each]. exec. intros [= <-]. exists Mse. solve_lookup. auto 10.
    + erewrite loop_unbound; [done|solve_lookup; reflexivity..].
Qed.

(** The cells up to the ranks, from the empty namespace. *)
Lemma measure_inv c (g1 : globals T) :
  measure c ∅ = Ok g1 →
  ∃ f, (selected (cfg_loss_name c) = Some f
        ∨ selected (cfg_loss_name c) = None ∧ batches c = [])
    ∧ 0 ≤ total_params c ∧ 0 ≤ cfg_dim c
    ∧ after_setup c g1 ∧ after_measure c f g1.
Proof.
  intros Hrun. destruct (setup_spec c) as (g0 & Hsetup & Hg0).
  unfold measure, then_ in Hrun. rewrite Hsetup in Hrun.
  cbn [mbind result_bind] in Hrun.
  destruct (cell_accumulate g0) as [g2|] eqn:Hacc; [|done].
  cbn [mbind result_bind] in Hrun.
  pose proof (cell_accumulate_modifies g0 g2 Hacc) as Hfr2.
  pose proof (cell_ranks_modifies g2 g1 Hrun) as Hfr1.
  destruct (cell_accumulate_inv c g0 g2 Hg0 Hacc)
    as (f & Hf & Hp & Hd & Hcov & HHL & HHO & HHF).
  exists f. do 3 (split; [done|]). split.
  - destruct Hg0. split; rewrite Hfr1, Hfr2 by solve_names; done.
  - revert Hrun. unfold cell_ranks, rank_of. exec. intros [= <-].
    split; solve_lookup; done.
Qed.

(** When a loss is selected and the sizes are not negative, the cells up
    to the ranks succeed. *)
Lemma measure_ok c :
  is_Some (selected (cfg_loss_name c)) ∨ batches c = [] →
  0 ≤ total_params c → 0 ≤ cfg_dim c →
  ∃ g1 : globals T, measure c ∅ = Ok g1.
Proof.
  intros Hf Hp Hd. destruct (setup_spec c) as (g0 & Hsetup & []).
  unfold measure, then_. rewrite Hsetup. cbn [mbind result_bind].
  unfold cell_accumulate, init_accumulators, square_zeros,
    accumulation_loop, functional_hessian, jnp_zeros, cell_ranks, rank_of.
  exec.
  destruct (Z.ltb_spec (total_params c) 0) as [|_]; [lia|]. cbn. exec.
  destruct (Z.ltb_spec (cfg_dim c) 0) as [|_]; [lia|]. cbn. exec.
  destruct Hf as [[f Hsel]|Hb].
  - rewrite Hsel in *. cbn in *.
    match goal with
    | |- context [for_each loop_body ?bl ?g] =>
        edestruct (loop_bound bl g) as (g' & -> & Hc' & HL' & HO' & Hfr);
          [solve_lookup; reflexivity..|]
    end.
    exec. eauto.
  - rewrite Hb. cbn [for_each]. exec. eauto.
Qed.

End Cells.

(** ** Tensor algebra *)

Section TensorFacts.
Context {T : Type} `{!Arith T}.

Lemma has_shape_zeros m n : has_shape m n (zeros m n).
Proof.
  unfold has_shape, zeros. split; [apply length_replicate|].
  apply Forall_replicate, length_replicate.
Qed.

Lemma has_shape_mzip (f : T → T → T) m n A B :
  has_shape m n A → has_shape m n B → has_shape m n (mzip f A B).
Proof.
  unfold has_shape, mzip. intros [HA HrA] [HB HrB]. split.
  - rewrite length_zip_with. lia.
  - subst m. revert B HB HrB.
    induction HrA as [|r A Hr _ IH]; intros [|r' B] HB HrB; cbn; try done.
    apply Forall_cons in HrB as [Hr' HrB]. constructor.
    + rewrite length_zip_with. lia.
    + apply IH; [by injection HB|done].
Qed.

Lemma has_shape_accumulate {B} (term : B → matrix T) m n A0 bl :
  has_shape m n A0 → (∀ b, has_shape m n (term b)) →
  has_shape m n (accumulate term A0 bl).
Proof.
  intros HA Hterm. unfold accumulate. revert A0 HA.
  induction bl as [|b bl IH]; intros A0 HA; cbn; [done|].
  apply IH. by apply has_shape_mzip.
Qed.

(** Reordering two additions onto the same accumulator. *)
Lemma zip_with_add_swap `{!ExactArith T} (a u v : list T) :
  zip_with t_add (zip_with t_add a u) v = zip_with t_add (zip_with t_add a v) u.
Proof.
  revert u v. induction a as [|x a IH]; intros [|y u] [|z v]; cbn; try done.
  f_equal; [|apply IH].
  by rewrite <- !t_add_assoc, (t_add_comm y z).
Qed.

Lemma madd_swap `{!ExactArith T} (A U V : matrix T) :
  madd (madd A U) V = madd (madd A V) U.
Proof.
  unfold madd, mzip. revert U V.
  induction A as [|a A IH]; intros [|u U] [|v V]; cbn; try done.
  f_equal; [apply zip_with_add_swap|apply IH].
Qed.

(** A running sum does not depend on the order of its terms. *)
Lemma accumulate_perm `{!ExactArith T} {B} (term : B → matrix T) A0 bl bl' :
  bl ≡ₚ bl' → accumulate term A0 bl = accumulate term A0 bl'.
Proof.
  unfold accumulate. intros Hperm. revert A0.
  induction Hperm as [|b bl bl' _ IH|b b' bl|bl bl' bl'' _ IH1 _ IH2];
    intros A0; cbn [foldl].
  - done.
  - apply IH.
  - by rewrite madd_swap.
  - by rewrite IH1.
Qed.

Lemma zip_with_sub_add `{!ExactArith T} (u v : list T) :
  length u = length v → zip_with t_add (zip_with t_sub u v) v = u.
Proof.
  revert v. induction u as [|x u IH]; intros [|y v]; cbn; try done.
  intros [= Hlen]. by rewrite t_sub_add, IH.
Qed.

(** [(A - B) + B = A] for arrays of one shape. *)
Lemma madd_msub `{!ExactArith T} m n (A B : matrix T) :
  has_shape m n A → has_shape m n B → madd (msub A B) B = A.
Proof.
  unfold has_shape, madd, msub, mzip. intros [HA HrA] [HB HrB]. subst m.
  revert B HB HrB.
  induction HrA as [|r A Hr _ IH]; intros [|r' B] HB HrB; cbn; try done.
  apply Forall_cons in HrB as [Hr' HrB].
  rewrite zip_with_sub_add by lia. rewrite IH; [done|by injection HB|done].
Qed.

End TensorFacts.

(** ** The last cell *)

Lemma bounds_inv r k ws pr :
  bounds r k ws = Ok pr →
  Int64.in_range r = true ∧ Int64.in_range k = true
  ∧ Forall (λ z, Int64.in_range z = true) ws
  ∧ Int64.in_range (py_sum ws) = true ∧ Int64.in_range (py_len ws + 1) = true.
Proof.
  unfold bounds. intros Hb.
  destruct (expr_s r k) as [s|] eqn:Hs; cbn [mbind result_bind] in Hb; [|done].
  destruct (expr_q r k ws) as [q|] eqn:Hq; cbn [mbind result_bind] in Hb; [|done].
  destruct (expr_pred_F q s ws) as [pF|] eqn:HpF;
    cbn [mbind result_bind] in Hb; [|done].
  clear Hb Hs. unfold expr_q in Hq. unfold expr_pred_F in HpF.
  destruct (jnp_array ([r; k] ++ ws)) as [a|] eqn:Ha;
    cbn [mbind result_bind] in Hq; [|done].
  apply jnp_array_inv in Ha as [_ Hall].
  apply Forall_cons in Hall as [Hr Hall]. apply Forall_cons in Hall as [Hk Hall].
  destruct (Int64.of_int (py_sum ws)) as [sw|] eqn:Hsw;
    cbn [mbind result_bind] in HpF; [|done].
  apply Int64Facts.of_int_inv in Hsw as [_ Hsw].
  destruct (Int64.of_int (py_len ws + 1)) as [n|] eqn:Hn;
    cbn [mbind result_bind] in HpF; [|done].
  apply Int64Facts.of_int_inv in Hn as [_ Hn].
  done.
Qed.

Section BoundsCell.
Context {T : Type} `{!Arith T} `{!LossOps T} `{!Collaborators T}.

Lemma adjust_classes_spec (g : globals T) name k0 :
  g !! "loss_name" = Some (VStr name) → g !! "classes" = Some (VInt k0) →
  ∃ g', adjust_classes g = Ok g'
    ∧ g' !! "classes" = Some (VInt (effective_classes name k0))
    ∧ ∀ x, x ≠ "classes" → g' !! x = g !! x.
Proof.
  intros Hn Hk. unfold adjust_classes, effective_classes. exec.
  destruct (String.eqb name "cross"); exec; eexists; (split; [done|]).
  - solve_lookup. split; [done|]. intros x Hx. by rewrite lookup_insert_ne.
  - done.
Qed.

Lemma compute_bounds_spec (g : globals T) r k ws :
  g !! "rank_cov" = Some (VI64 r) → g !! "classes" = Some (VInt k) →
  g !! "widths" = Some (VInts ws) →
  match bounds r k ws with
  | Ok pr =>
      ∃ g', compute_bounds g = Ok g'
        ∧ g' !! "s" = Some (VI64 (val_s pr))
        ∧ g' !! "q" = Some (VI64 (val_q pr))
        ∧ g' !! "pred_F" = Some (VI64 (val_pred_F pr))
        ∧ g' !! "pred_outer" = Some (VI64 (val_pred_outer pr))
        ∧ g' !! "pred_L" = Some (VI64 (val_pred_L pr))
        ∧ ∀ x, x ∉ ["s"; "q"; "pred_F"; "pred_outer"; "pred_L"] → g' !! x = g !! x
  | Raise e => compute_bounds g = Raise e
  end.
Proof.
  intros Hr Hk Hw. unfold compute_bounds, bounds. exec.
  destruct (expr_s r k) as [s|e]; exec; [|done].
  destruct (expr_q r k ws) as [q|e]; exec; [|done].
  destruct (expr_pred_F q s ws) as [pF|e]; exec; [|done].
  destruct (expr_pred_outer r k q) as [pO|e]; exec; [|done].
  eexists. split; [done|]. solve_lookup. do 5 (split; [done|]).
  intros x Hx. rewrite !lookup_insert_ne; [done|solve_names..].
Qed.

Lemma print_comparison_spec (g : globals T) rF rO rL pF pO pL :
  g !! "rank_F" = Some (VI64 rF) → g !! "rank_outer" = Some (VI64 rO) →
  g !! "rank_L" = Some (VI64 rL) → g !! "pred_F" = Some (VI64 pF) →
  g !! "pred_outer" = Some (VI64 pO) → g !! "pred_L" = Some (VI64 pL) →
  ∃ g' old, print_comparison g = Ok g'
    ∧ g' !! stdout = Some (VOut (old ++
        ["Rank of Functional Hessian is " +:+ pretty rF +:+ " and the prediction is " +:+ pretty pF;
         "Rank of Gradient Outer Product is " +:+ pretty rO +:+ " and the prediction is " +:+ pretty pO;
         "Rank of Loss Hessian is " +:+ pretty rL +:+ " and the prediction is " +:+ pretty pL]))
    ∧ (g !! stdout = None → old = [])
    ∧ ∀ x, x ≠ stdout → g' !! x = g !! x.
Proof.
  intros HrF HrO HrL HpF HpO HpL. unfold print_comparison, report, stdout.
  exec. 
  eexists. exists (match g !! "<stdout>" with Some (VOut ls) => ls | _ => [] end).
  split; [done|]. solve_lookup. split; [|split].
  - unfold stdout. do 2 f_equal.
    destruct (g !! "<stdout>") as [[]|]; rewrite <- ?app_assoc; reflexivity.
  - by intros ->.
  - intros x Hx. by rewrite !lookup_insert_ne.
Qed.


(** The whole cell, on a namespace that binds what it reads. *)
Lemma cell_bounds_spec (g : globals T) name r k0 ws rF rO rL :
  g !! "loss_name" = Some (VStr name) → g !! "rank_cov" = Some (VI64 r) →
  g !! "classes" = Some (VInt k0) → g !! "widths" = Some (VInts ws) →
  g !! "rank_F" = Some (VI64 rF) → g !! "rank_outer" = Some (VI64 rO) →
  g !! "rank_L" = Some (VI64 rL) →
  match bounds r (effective_classes name k0) ws with
  | Ok pr =>
      ∃ g', cell_bounds g = Ok g'
        ∧ g' !! "classes" = Some (VInt (effective_classes name k0))
        ∧ g' !! "s" = Some (VI64 (val_s pr))
        ∧ g' !! "q" = Some (VI64 (val_q pr))
        ∧ g' !! "pred_F" = Some (VI64 (val_pred_F pr))
        ∧ g' !! "pred_outer" = Some (VI64 (val_pred_outer pr))
        ∧ g' !! "pred_L" = Some (VI64 (val_pred_L pr))
  | Raise e => cell_bounds g = Raise e
  end.
Proof.
  intros Hn Hr Hk Hw HrF HrO HrL. unfold cell_bounds, then_.
  destruct (adjust_classes_spec g name k0 Hn Hk) as (g1 & -> & Hk1 & Hfr1).
  cbn [mbind result_bind].
  pose proof (compute_bounds_spec g1 r (effective_classes name k0) ws) as Hc.
  rewrite Hfr1 in Hc by done. specialize (Hc Hr Hk1).
  rewrite Hfr1 in Hc by done. specialize (Hc Hw).
  destruct (bounds r (effective_classes name k0) ws) as [pr|e];
    [|by rewrite Hc].
  destruct Hc as (g2 & -> & Hs & Hq & HpF & HpO & HpL & Hfr2).
  cbn [mbind result_bind].
  destruct (print_comparison_spec g2 rF rO rL
              (val_pred_F pr) (val_pred_outer pr) (val_pred_L pr))
    as (g3 & old & -> & _ & _ & Hfr3); try done.
  1-3: rewrite Hfr2, Hfr1 by solve_names; done.
  exists g3. split; [done|]. rewrite !Hfr3 by done.
  rewrite Hfr2 by solve_names. done.
Qed.

End BoundsCell.

(** ** The loss family and the class count *)

Lemma selected_Some name f :
  selected name = Some f
  ↔ name = "mse" ∧ f = Mse ∨ name = "cross" ∧ f = Cross
    ∨ name = "cosh" ∧ f = Cosh.
Proof.
  destruct (selected_cases name)
    as [[-> Hs]|[[-> Hs]|[[-> Hs]|(H1 & H2 & H3 & Hs)]]]; rewrite Hs.
  1-3: split; [intros [= <-]; auto|]; intros [[? ->]|[[? ->]|[? ->]]]; done.
  apply String.eqb_neq in H1, H2, H3.
  split; [done|]. intros [[? _]|[[? _]|[? _]]]; done.
Qed.

Lemma selected_None name :
  selected name = None ↔ name ≠ "mse" ∧ name ≠ "cross" ∧ name ≠ "cosh".
Proof.
  unfold selected.
  destruct (String.eqb_spec name "mse"); [intuition congruence|].
  destruct (String.eqb_spec name "cross"); [intuition congruence|].
  destruct (String.eqb_spec name "cosh"); intuition congruence.
Qed.

Lemma effective_classes_other name k :
  name ≠ "cross" → effective_classes name k = k.
Proof.
  intros Hn. unfold effective_classes.
  by destruct (String.eqb_spec name "cross").
Qed.

Lemma bounds_min r k ws pr :
  bounds r k ws = Ok pr → val_s pr = Z.min r k ∧ val_q pr = min_all r k ws.
Proof.
  intros Hb. destruct (bounds_inv r k ws pr Hb) as (Hr & Hk & Hws & Hsum & Hlen).
  rewrite bounds_wrap in Hb by done. by injection Hb as <-.
Qed.

(** C4.  The class count that enters the bounds is the configured one less
    one when, and only when, the loss name is ['cross']; for every other
    name it is the configured one.  The last cell rebinds [classes] to it
    first, and [s = min(rank_cov, classes)] and
    [q = min(rank_cov, classes, widths)] and the three predictions are
    computed from the rebound value. *)
Theorem effective_class_count {T : Type} (g : globals T) name r k0 ws rF rO rL :
  g !! "loss_name" = Some (VStr name) → g !! "rank_cov" = Some (VI64 r) →
  g !! "classes" = Some (VInt k0) → g !! "widths" = Some (VInts ws) →
  g !! "rank_F" = Some (VI64 rF) → g !! "rank_outer" = Some (VI64 rO) →
  g !! "rank_L" = Some (VI64 rL) →
  let k := effective_classes name k0 in
  (name = "cross" → k = k0 - 1) ∧ (name ≠ "cross" → k = k0)
  ∧ match bounds r k ws with
    | Ok pr =>
        val_s pr = Z.min r k ∧ val_q pr = min_all r k ws
        ∧ ∃ g', cell_bounds g = Ok g'
            ∧ g' !! "classes" = Some (VInt k)
            ∧ g' !! "s" = Some (VI64 (val_s pr))
            ∧ g' !! "q" = Some (VI64 (val_q pr))
            ∧ g' !! "pred_F" = Some (VI64 (val_pred_F pr))
            ∧ g' !! "pred_outer" = Some (VI64 (val_pred_outer pr))
            ∧ g' !! "pred_L" = Some (VI64 (val_pred_L pr))
    | Raise e => cell_bounds g = Raise e
    end.
Proof.
  intros Hn Hr Hk Hw HrF HrO HrL k.
  split; [by intros ->|]. split; [apply effective_classes_other|].
  pose proof (cell_bounds_spec g name r k0 ws rF rO rL Hn Hr Hk Hw HrF HrO HrL)
    as Hc.
  fold k in Hc. destruct (bounds r k ws) as [pr|e] eqn:Hb; [|done].
  destruct (bounds_min r k ws pr Hb). done.
Qed.

Lemma effective_class_count_witness :
  ∃ g', cell_bounds IntModel.cross_namespace = Ok g'
    ∧ g' !! "classes" = Some (VInt 9)
    ∧ g' !! "s" = Some (VI64 9)
    ∧ g' !! "q" = Some (VI64 5)
    ∧ g' !! "pred_F" = Some (VI64 165)
    ∧ g' !! "pred_outer" = Some (VI64 145)
    ∧ g' !! "pred_L" = Some (VI64 245).
Proof.
  pose proof (effective_class_count IntModel.cross_namespace
                "cross" 25 10 [5; 10] 175 150 250
                eq_refl eq_refl eq_refl eq_refl eq_refl eq_refl eq_refl)
    as (_ & _ & Hc).
  cbv zeta in Hc.
  change (bounds 25 (effective_classes "cross" 10) [5; 10])
    with (Ok (Prediction 9 5 165 145 245)) in Hc.
  exact (proj2 (proj2 Hc)).
Defined.

(** C8.  Whenever the operands are 64-bit integers, the cell's
    [pred_L = pred_F + pred_outer + q (q - 2 s)] is the closed form
    [2 q sum(widths) - L q^2 + q (r + k)] with [L = len(widths) + 1] and
    [q = min(r, k, widths)]: always modulo [2^64], and exactly when the
    closed form is a 64-bit integer (whether or not [pred_F] and
    [pred_outer] wrapped on the way). *)
Theorem pred_L_closed_form r k ws :
  Int64.in_range r = true → Int64.in_range k = true →
  Forall (λ z, Int64.in_range z = true) ws →
  Int64.in_range (py_sum ws) = true → Int64.in_range (py_len ws + 1) = true →
  ∃ pr, bounds r k ws = Ok pr
    ∧ val_q pr = min_all r k ws
    ∧ val_pred_L pr
      = expr_pred_L (val_pred_F pr) (val_pred_outer pr) (val_q pr) (val_s pr)
    ∧ val_pred_L pr
      = Int64.wrap (2 * val_q pr * py_sum ws - (py_len ws + 1) * val_q pr ^ 2
                    + val_q pr * (r + k))
    ∧ (Int64.in_range (2 * val_q pr * py_sum ws - (py_len ws + 1) * val_q pr ^ 2
                       + val_q pr * (r + k)) = true →
       val_pred_L pr
       = 2 * val_q pr * py_sum ws - (py_len ws + 1) * val_q pr ^ 2
         + val_q pr * (r + k)).
Proof.
  intros Hr Hk Hws Hsum Hlen. eexists. split; [by apply bounds_wrap|]. cbn.
  split; [done|]. split; [by rewrite expr_pred_L_wrap|].
  rewrite ideal_L_closed. unfold closed_L. split; [done|].
  intros Hfit. by apply Int64Facts.wrap_id.
Qed.

Lemma pred_L_closed_form_witness :
  ∃ pr, bounds 25 10 [5; 10] = Ok pr ∧ val_pred_L pr = 250.
Proof.
  destruct (pred_L_closed_form 25 10 [5; 10]) as (pr & Hb & Hq & _ & _ & HL);
    [reflexivity|reflexivity|repeat constructor|reflexivity|reflexivity|].
  exists pr. split; [exact Hb|]. rewrite HL; rewrite Hq; reflexivity.
Defined.
(** ** Whole runs *)

Section Runs.
Context {T : Type} `{!Arith T} `{!LossOps T} `{!Collaborators T}.

Lemma run_inv c (g : globals T) :
  run c = Ok g → ∃ g1, measure c ∅ = Ok g1 ∧ cell_bounds g1 = Ok g.
Proof.
  unfold run, notebook, then_. intros Hrun.
  destruct (measure c ∅) as [g1|]; [|done]. eauto.
Qed.

(** C9.  When the loss name is none of ['mse'], ['cross'], ['cosh'], the
    loss cell finishes without an error and leaves [loss], [loss_params]
    and [cross] unbound; the accumulation loop, once it is reached with at
    least one batch, stops at its first use of the loss with a
    [NameError] (for [loss_params]) and the run produces no result. *)
Theorem unknown_loss_name_is_a_name_error c :
  cfg_loss_name c ≠ "mse" → cfg_loss_name c ≠ "cross" →
  cfg_loss_name c ≠ "cosh" →
  (∃ g0 : globals T, setup c ∅ = Ok g0
     ∧ g0 !! "loss" = None ∧ g0 !! "loss_params" = None ∧ g0 !! "cross" = None)
  ∧ (0 ≤ total_params c → 0 ≤ cfg_dim c → batches c ≠ [] →
     run c = Raise (NameError "loss_params")).
Proof.
  intros H1 H2 H3.
  assert (selected (cfg_loss_name c) = None) as Hsel by by apply selected_None.
  destruct (setup_spec c) as (g0 & Hsetup & Hg0).
  split.
  - exists g0. destruct Hg0. rewrite Hsel in *. done.
  - intros Hp Hd Hb. unfold run, notebook, measure, then_.
    rewrite Hsetup. cbn [mbind result_bind].
    pose proof (setup_loss_params c g0 Hg0) as Hlp.
    rewrite Hsel in Hlp. cbn in Hlp. destruct Hg0.
    unfold cell_accumulate, init_accumulators, square_zeros,
    accumulation_loop, jnp_zeros, then_.
    exec.
    destruct (Z.ltb_spec (total_params c) 0) as [|_]; [lia|]. cbn. exec.
    destruct (Z.ltb_spec (cfg_dim c) 0) as [|_]; [lia|]. cbn. exec.
    destruct (batches c) as [|b bl]; [done|].
    erewrite loop_unbound; [done|solve_lookup; reflexivity..].
Qed.

(** C10.  In a completed run the decrement of [classes] happens in the
    last cell, after everything else is built: before that cell [classes]
    is the configured count; the cell writes only [classes], [s], [q],
    the three predictions and the console; and [all_widths], [p], the
    dataset, the loader, the network closure, the parameters, the
    accumulated matrices and the measured ranks are, at the end, the
    values computed from the configured count. *)
Theorem class_decrement_is_local c (g : globals T) :
  run c = Ok g →
  ∃ g1 f, measure c ∅ = Ok g1 ∧ cell_bounds g1 = Ok g
    ∧ g1 !! "classes" = Some (VInt (cfg_classes c))
    ∧ g !! "classes"
      = Some (VInt (effective_classes (cfg_loss_name c) (cfg_classes c)))
    ∧ (∀ x, x ∉ ["classes"; "s"; "q"; "pred_F"; "pred_outer"; "pred_L"; stdout] →
            g !! x = g1 !! x)
    ∧ g !! "all_widths"
      = Some (VInts ([cfg_dim c] ++ cfg_widths c ++ [cfg_classes c]))
    ∧ g !! "p" = Some (VInt (total_params c))
    ∧ g !! "data" = Some (VData (dataset c).1 (dataset c).2)
    ∧ g !! "train_loader" = Some (VLoader (batches c))
    ∧ g !! "apply_fn" = Some (VFun (Fn_apply_fn (cfg_widths c) (cfg_classes c)))
    ∧ g !! "params" = Some (VMats (initial_params c).2)
    ∧ after_measure c f g.
Proof.
  intros Hrun. destruct (run_inv c g Hrun) as (g1 & Hm & Hb).
  destruct (measure_inv c g1 Hm) as (f & _ & _ & _ & Hs & Hmeas).
  pose proof (cell_bounds_modifies g1 g Hb) as Hfr.
  exists g1, f. do 2 (split; [done|]).
  split; [by destruct Hs|]. split.
  { pose proof (cell_bounds_spec g1 _ _ _ _ _ _ _
                  (setup_loss_name c g1 Hs) (measured_rank_cov c f g1 Hmeas)
                  (setup_classes c g1 Hs) (setup_widths c g1 Hs)
                  (measured_rank_F c f g1 Hmeas)
                  (measured_rank_outer c f g1 Hmeas)
                  (measured_rank_L c f g1 Hmeas)) as Hc.
    destruct (bounds _ _ _); [|congruence].
    destruct Hc as (g' & Hg' & Hk & _). congruence. }
  split; [done|]. destruct Hs, Hmeas.
  do 6 (split; [by rewrite Hfr by solve_names|]).
  split; rewrite Hfr by solve_names; done.
Qed.


(** A run completes when a loss is selected (or there is no batch), the
    sizes are not negative and the bounds are 64-bit integers. *)
Lemma run_ok c pr :
  is_Some (selected (cfg_loss_name c)) ∨ batches c = [] →
  0 ≤ total_params c → 0 ≤ cfg_dim c →
  bounds (matrix_rank (accumulated_cov c))
    (effective_classes (cfg_loss_name c) (cfg_classes c)) (cfg_widths c)
  = Ok pr →
  ∃ g : globals T, run c = Ok g.
Proof.
  intros Hsel Hp Hd Hb. destruct (measure_ok c Hsel Hp Hd) as (g1 & Hm).
  destruct (measure_inv c g1 Hm) as (f & _ & _ & _ & Hs & Hmeas).
  pose proof (cell_bounds_spec g1 _ _ _ _ _ _ _
                (setup_loss_name c g1 Hs) (measured_rank_cov c f g1 Hmeas)
                (setup_classes c g1 Hs) (setup_widths c g1 Hs)
                (measured_rank_F c f g1 Hmeas)
                (measured_rank_outer c f g1 Hmeas)
                (measured_rank_L c f g1 Hmeas)) as Hc.
  rewrite Hb in Hc. destruct Hc as (g & Hg & _).
  exists g. unfold run, notebook, then_. by rewrite Hm.
Qed.

(** X7.  In a completed run of a network with positive sizes and fewer
    than [2^61] parameters, with a covariance rank between 0 and [dim],
    nothing wraps around: the names of the last cell are bound to the
    values of the formulas over the integers. *)
Lemma run_predictions_exact c (g : globals T) :
  run c = Ok g →
  1 ≤ cfg_dim c → 1 ≤ cfg_classes c → Forall (λ m, 1 ≤ m) (cfg_widths c) →
  total_params c < 2 ^ 61 →
  0 ≤ matrix_rank (accumulated_cov c) ≤ cfg_dim c →
  let r := matrix_rank (accumulated_cov c) in
  let k := effective_classes (cfg_loss_name c) (cfg_classes c) in
  let s := Z.min r k in
  let q := min_all r k (cfg_widths c) in
  g !! "s" = Some (VI64 s) ∧ g !! "q" = Some (VI64 q)
  ∧ g !! "pred_F"
    = Some (VI64 (2 * q * py_sum (cfg_widths c) + 2 * q * s
                  - (py_len (cfg_widths c) + 1) * q ^ 2))
  ∧ g !! "pred_outer" = Some (VI64 (q * (r + k - q)))
  ∧ g !! "pred_L"
    = Some (VI64 (2 * q * py_sum (cfg_widths c)
                  - (py_len (cfg_widths c) + 1) * q ^ 2 + q * (r + k))).
Proof.
  intros Hrun Hd Hk0 Hws Hp Hr r k s q.
  destruct (run_inv c g Hrun) as (g1 & Hm & Hb).
  destruct (measure_inv c g1 Hm) as (f & _ & _ & _ & Hs & Hmeas).
  pose proof (cell_bounds_spec g1 _ _ _ _ _ _ _
                (setup_loss_name c g1 Hs) (measured_rank_cov c f g1 Hmeas)
                (setup_classes c g1 Hs) (setup_widths c g1 Hs)
                (measured_rank_F c f g1 Hmeas)
                (measured_rank_outer c f g1 Hmeas)
                (measured_rank_L c f g1 Hmeas)) as Hc.
  assert (0 ≤ k ≤ cfg_classes c) as Hk.
  { subst k. unfold effective_classes.
    destruct (String.eqb (cfg_loss_name c) "cross"); lia. }
  pose proof (bounds_exact_for_networks (cfg_dim c) (cfg_classes c)
                (cfg_widths c) r k Hd Hk0 Hws Hr Hk Hp) as E.
  cbv zeta in E. subst r k s q. rewrite E in Hc.
  destruct Hc as (g' & Hg' & _ & Hs' & Hq' & HF & HO & HL).
  rewrite Hb in Hg'. injection Hg' as <-.
  cbn [val_s val_q val_pred_F val_pred_outer val_pred_L] in Hs', Hq', HF, HO, HL.
  do 4 (split; [done|]). rewrite HL. do 2 f_equal. ring.
Qed.

(** C3.  In exact arithmetic, and with collaborators that return
    [p] by [p] matrices, every completed run binds [H_F] to
    [H_L - H_outer], and [H_L] is the sum of [H_F] and [H_outer]. *)
Theorem loss_hessian_is_functional_plus_outer `{!ExactArith T} c (g : globals T) :
  let p := Z.to_nat (total_params c) in
  (∀ f ps x y, has_shape p p (loss_hessian f ps x y)) →
  (∀ l a ps x y cr, has_shape p p (outer_prod l a ps x y cr)) →
  run c = Ok g →
  ∃ H_L H_F H_outer,
    g !! "H_L" = Some (VMat H_L) ∧ g !! "H_F" = Some (VMat H_F)
    ∧ g !! "H_outer" = Some (VMat H_outer)
    ∧ H_F = msub H_L H_outer ∧ H_L = madd H_F H_outer.
Proof.
  intros p HshL HshO Hrun. destruct (run_inv c g Hrun) as (g1 & Hm & Hb).
  destruct (measure_inv c g1 Hm) as (f & _ & _ & _ & _ & Hmeas).
  pose proof (cell_bounds_modifies g1 g Hb) as Hfr.
  exists (accumulated_H_L c f),
    (msub (accumulated_H_L c f) (accumulated_H_outer c f)),
    (accumulated_H_outer c f).
  destruct Hmeas. do 3 (split; [by rewrite Hfr by solve_names|]).
  split; [done|]. symmetry. apply (madd_msub p p).
  - apply has_shape_accumulate; [apply has_shape_zeros|]. intros b. apply HshL.
  - apply has_shape_accumulate; [apply has_shape_zeros|]. intros b. apply HshO.
Qed.

(** C7.  The three accumulators [cov], [H_L] and [H_outer]: at the end
    of a completed run each holds the zero matrix of its shape
    ([dim] by [dim], [p] by [p], [p] by [p]) plus the running sum of the
    per-batch contributions; they are created as those zero matrices;
    each pass of the loop body replaces each by itself plus one
    contribution; and the statements after the loop (the functional
    Hessian, the ranks, the bounds) do not write them. *)
Theorem accumulators_lifecycle :
  (∀ c (g : globals T), run c = Ok g →
     ∃ f, g !! "cov"
          = Some (VMat (accumulate cov_term
                          (zeros (Z.to_nat (cfg_dim c)) (Z.to_nat (cfg_dim c)))
                          (batches c)))
        ∧ g !! "H_L"
          = Some (VMat (accumulate
                          (H_L_term (Fn_loss_params f) (the_apply_fn c)
                             (Fn_loss f) (initial_params c).2)
                          (zeros (Z.to_nat (total_params c))
                             (Z.to_nat (total_params c)))
                          (batches c)))
        ∧ g !! "H_outer"
          = Some (VMat (accumulate
                          (H_outer_term (Fn_loss f) (the_apply_fn c)
                             (initial_params c).2 (is_cross f))
                          (zeros (Z.to_nat (total_params c))
                             (Z.to_nat (total_params c)))
                          (batches c))))
  ∧ (∀ (g g' : globals T) p dim,
       g !! "p" = Some (VInt p) → g !! "dim" = Some (VInt dim) →
       init_accumulators g = Ok g' →
       g' !! "H_L" = Some (VMat (zeros (Z.to_nat p) (Z.to_nat p)))
       ∧ g' !! "H_outer" = Some (VMat (zeros (Z.to_nat p) (Z.to_nat p)))
       ∧ g' !! "cov" = Some (VMat (zeros (Z.to_nat dim) (Z.to_nat dim)))
       ∧ has_shape (T := T) (Z.to_nat p) (Z.to_nat p)
           (zeros (Z.to_nat p) (Z.to_nat p))
       ∧ has_shape (T := T) (Z.to_nat dim) (Z.to_nat dim)
           (zeros (Z.to_nat dim) (Z.to_nat dim)))
  ∧ (∀ b (g g' : globals T), loop_body b g = Ok g' →
       ∃ cov H_L H_outer term_L term_outer,
         g !! "cov" = Some (VMat cov) ∧ g !! "H_L" = Some (VMat H_L)
         ∧ g !! "H_outer" = Some (VMat H_outer)
         ∧ g' !! "cov" = Some (VMat (madd cov (matmul (transpose b.1) b.1)))
         ∧ g' !! "H_L" = Some (VMat (madd H_L term_L))
         ∧ g' !! "H_outer" = Some (VMat (madd H_outer term_outer)))
  ∧ (∀ g g' : globals T,
       (functional_hessian ;; cell_ranks ;; cell_bounds)%stmt g = Ok g' →
       g' !! "cov" = g !! "cov" ∧ g' !! "H_L" = g !! "H_L"
       ∧ g' !! "H_outer" = g !! "H_outer").
Proof.
  split; [|split; [|split]].
  - intros c g Hrun. destruct (run_inv c g Hrun) as (g1 & Hm & Hb).
    destruct (measure_inv c g1 Hm) as (f & _ & _ & _ & _ & Hmeas).
    pose proof (cell_bounds_modifies g1 g Hb) as Hfr.
    exists f. destruct Hmeas. by rewrite !Hfr by solve_names.
  - intros g g' p dim Hp Hd. unfold init_accumulators, square_zeros, jnp_zeros.
  exec.
    destruct (p <? 0); cbn; [done|]. exec.
    destruct (dim <? 0); cbn; [done|]. exec.
    intros [= <-]. solve_lookup. auto using has_shape_zeros.
  - intros b g g'. unfold loop_body. exec.
    destruct (g !! "cov") as [[]|] eqn:?; exec; try done.
    destruct (g !! "H_L") as [[]|] eqn:?; exec; try done.
    destruct (g !! "loss_params") as [[]|] eqn:?; exec; try done.
    destruct (g !! "params") as [[]|] eqn:?; exec; try done.
    destruct (g !! "H_outer") as [[]|] eqn:?; exec; try done.
    destruct (g !! "loss") as [[]|] eqn:?; exec; try done.
    destruct (g !! "apply_fn") as [[]|] eqn:?; exec; try done.
    destruct (g !! "cross") as [[]|] eqn:?; exec; try done.
    intros [= <-]. solve_lookup. eauto 12.
  - intros g g' Hg.
    assert (modifies (T := T) (functional_hessian ;; cell_ranks ;; cell_bounds)%stmt
              (["H_F"] ++ ["rank_cov"; "rank_L"; "rank_outer"; "rank_F"]
               ++ ["classes"; "s"; "q"; "pred_F"; "pred_outer"; "pred_L"; stdout]))
      as Hmod.
    { repeat apply modifies_then;
        [apply modifies_assign|apply cell_ranks_modifies|apply cell_bounds_modifies]. }
    rewrite !(Hmod g g' Hg) by solve_names. done.
Qed.

End Runs.

(** C5.  In exact arithmetic, processing the batches in another order
    leaves the accumulated covariance, loss Hessian, outer-product Hessian
    and their difference unchanged, and so their ranks: two loaders whose
    batch lists are permutations of one another give the same values to
    these names (in particular two orders of the equal-size chunks of the
    training set). *)
Theorem batch_order_invariance {T : Type} `{!Arith T} `{!LossOps T}
    `{!ExactArith T} (C : Collaborators T)
    (loader : matrix T → matrix T → Z → list (matrix T * matrix T))
    c (g1 : globals T) :
  batches (Collaborators0 := with_loader C loader) c
  ≡ₚ batches (Collaborators0 := C) c →
  measure (Collaborators0 := C) c ∅ = Ok g1 →
  ∃ g2, measure (Collaborators0 := with_loader C loader) c ∅ = Ok g2
    ∧ ∀ x, x ∈ ["cov"; "H_L"; "H_outer"; "H_F";
                "rank_cov"; "rank_L"; "rank_outer"; "rank_F"] →
           g2 !! x = g1 !! x.
Proof.
  intros Hb Hm1.
  destruct (measure_inv (Collaborators0 := C) c g1 Hm1)
    as (f1 & Hsel1 & Hp & Hd & _ & Hmeas1).
  destruct (measure_ok (Collaborators0 := with_loader C loader) c) as (g2 & Hm2);
    [|done..|].
  { destruct Hsel1 as [->|[_ Hnil]]; [by left; eexists|right].
    rewrite Hnil in Hb. by apply Permutation_nil_r in Hb. }
  exists g2. split; [done|].
  destruct (measure_inv (Collaborators0 := with_loader C loader) c g2 Hm2)
    as (f2 & Hsel2 & _ & _ & _ & Hmeas2).
  assert (accumulated_cov (Collaborators0 := with_loader C loader) c
          = accumulated_cov (Collaborators0 := C) c) as Ecov
    by (by apply accumulate_perm).
  assert (accumulated_H_L (Collaborators0 := with_loader C loader) c f2
          = accumulated_H_L (Collaborators0 := C) c f1
          ∧ accumulated_H_outer (Collaborators0 := with_loader C loader) c f2
            = accumulated_H_outer (Collaborators0 := C) c f1) as [EL EO].
  { unfold accumulated_H_L, accumulated_H_outer.
    destruct Hsel1 as [Hs1|[Hs1 Hnil1]]; destruct Hsel2 as [Hs2|[Hs2 Hnil2]];
      try congruence.
    - assert (f2 = f1) as -> by congruence.
      split; by apply accumulate_perm.
    - by rewrite Hnil1, Hnil2. }
  destruct Hmeas1 as [c1 L1 O1 F1 rc1 rL1 rO1 rF1].
  destruct Hmeas2 as [c2 L2 O2 F2 rc2 rL2 rO2 rF2].
  rewrite Ecov in c2, rc2. rewrite EL in L2, F2, rL2, rF2.
  rewrite EO in O2, F2, rO2, rF2.
  intros x Hx. rewrite !elem_of_cons, elem_of_nil in Hx.
  destruct Hx as [->|[->|[->|[->|[->|[->|[->|[->|[]]]]]]]]].
  - by rewrite c1, c2.
  - by rewrite L1, L2.
  - by rewrite O1, O2.
  - by rewrite F1, F2.
  - rewrite rc1, rc2; reflexivity.
  - rewrite rL1, rL2; reflexivity.
  - rewrite rO1, rO2; reflexivity.
  - rewrite rF1, rF2; reflexivity.
Qed.

(** ** The loss functionals *)

Section Losses.
Context {T : Type} `{!Arith T} `{!LossOps T} `{!Collaborators T}.

Lemma jnp_sum_entries (A : matrix T) : jnp_sum A = sum_entries A.
Proof.
  unfold jnp_sum, sum_entries. generalize (t_zero (T := T)).
  induction A as [|r A IH]; intros a; cbn; [done|].
  by rewrite foldl_app, IH.
Qed.

Lemma map_zip_with_row (f : T → T) (h : T → T → T) (u v : list T) :
  map f (zip_with h u v) = zip_with (λ a b, f (h a b)) u v.
Proof. revert v. induction u as [|a u IH]; intros [|b v]; cbn; by rewrite ?IH. Qed.

Lemma mmap_mzip (f : T → T) (h : T → T → T) (A B : matrix T) :
  mmap f (mzip h A B) = mzip (λ a b, f (h a b)) A B.
Proof.
  unfold mmap, mzip. revert B.
  induction A as [|u A IH]; intros [|v B]; cbn; [done..|].
  by rewrite map_zip_with_row, IH.
Qed.

Lemma call_loss_functional f (preds targets : matrix T) :
  call_loss (Fn_loss f) preds targets = Ok (loss_functional f preds targets).
Proof.
  destruct f; cbn [call_loss loss_functional]; f_equal.
  - unfold half_sum_squared_error, msquare, msub.
    by rewrite mmap_mzip, jnp_sum_entries.
  - unfold cross_entropy, mmul. by rewrite jnp_sum_entries.
  - unfold sum_log_cosh, msub. by rewrite !mmap_mzip, jnp_sum_entries.
Qed.

Lemma cell_loss_spec c (g : globals T) :
  ∃ g', cell_loss c g = Ok g'
    ∧ match selected (cfg_loss_name c) with
      | Some f =>
          g' !! "loss" = Some (VFun (Fn_loss f))
          ∧ g' !! "loss_params" = Some (VFun (Fn_loss_params f))
          ∧ g' !! "cross" = Some (VBool (is_cross f))
      | None =>
          g' !! "loss" = g !! "loss"
          ∧ g' !! "loss_params" = g !! "loss_params"
          ∧ g' !! "cross" = g !! "cross"
      end.
Proof.
  unfold cell_loss. exec.
  destruct (selected_cases (cfg_loss_name c))
    as [[Hn Hs]|[[Hn Hs]|[[Hn Hs]|(Hn1 & Hn2 & Hn3 & Hs)]]]; rewrite Hs.
  1-3: rewrite Hn; repeat progress (cbn [String.eqb Ascii.eqb Bool.eqb]; exec).
  4: rewrite Hn1; exec; rewrite Hn2; exec; rewrite Hn3; exec.
  all: eexists; split; [done|]; solve_lookup; done.
Qed.

(** C6.  The loss cell has exactly three branches, ['mse'], ['cross'] and
    ['cosh'], and binds [loss] and [loss_params] to the functions of the
    branch taken.  On predictions and targets of one shape, [loss] is half
    the sum of the squared differences, minus the sum of the targets times
    the log-softmax of the predictions, and the sum of the logarithms of
    the hyperbolic cosines of the differences, respectively; and
    [loss_params] is [loss] after the network evaluator. *)
Theorem loss_forms :
  (∀ name f,
     selected name = Some f
     ↔ name = "mse" ∧ f = Mse ∨ name = "cross" ∧ f = Cross
       ∨ name = "cosh" ∧ f = Cosh)
  ∧ (∀ c (g : globals T),
       ∃ g', cell_loss c g = Ok g'
         ∧ match selected (cfg_loss_name c) with
           | Some f =>
               g' !! "loss" = Some (VFun (Fn_loss f))
               ∧ g' !! "loss_params" = Some (VFun (Fn_loss_params f))
           | None =>
               g' !! "loss" = g !! "loss"
               ∧ g' !! "loss_params" = g !! "loss_params"
           end)
  ∧ (∀ m n (preds targets : matrix T),
       has_shape m n preds → has_shape m n targets →
       call_loss (Fn_loss Mse) preds targets
       = Ok (t_mul t_half
               (sum_entries
                  (zip_with (zip_with (λ p y, t_mul (t_sub p y) (t_sub p y)))
                     preds targets)))
       ∧ call_loss (Fn_loss Cross) preds targets
         = Ok (t_neg
                 (sum_entries
                    (zip_with (zip_with (λ l y, t_mul l y))
                       (logsoftmax preds) targets)))
       ∧ call_loss (Fn_loss Cosh) preds targets
         = Ok (sum_entries
                 (zip_with (zip_with (λ p y, t_log (t_cosh (t_sub p y))))
                    preds targets)))
  ∧ (∀ f apply_fn params inputs targets,
       call_loss_params (Fn_loss_params f) (Ok apply_fn) (Ok (Fn_loss f))
         params inputs targets
       = (preds ← call_apply_fn apply_fn params inputs;
          call_loss (Fn_loss f) preds targets)).
Proof.
  split; [apply selected_Some|]. split; [|split].
  - intros c g. destruct (cell_loss_spec c g) as (g' & Hg' & Hsel).
    exists g'. split; [done|].
    destruct (selected (cfg_loss_name c)); tauto.
  - intros m n preds targets _ _.
    by rewrite !call_loss_functional.
  - intros f apply_fn params inputs targets.
    destruct f; cbn [call_loss_params mbind result_bind]; try done.
    all: by destruct (call_apply_fn apply_fn params inputs).
Qed.
End Losses.


(** ** The integer instance *)

Import IntModel.

Lemma Z_exact : ExactArith Z.
Proof. split; cbn; intros; lia. Qed.
#[export] Existing Instance Z_exact.

Lemma run_small name :
  is_Some (selected name) → ∃ g, run (small name) = Ok g.
Proof.
  intros Hsel.
  assert (∃ pr, bounds (matrix_rank (accumulated_cov (small name)))
                  (effective_classes name 1) [1] = Ok pr) as [pr Hpr].
  { unfold effective_classes. destruct (String.eqb name "cross"); by eexists. }
  apply (run_ok (small name) pr); [by left|done|done|exact Hpr].
Qed.

Lemma shape_hessian_2x2 f ps x y : has_shape 2 2 (hessian_2x2 f ps x y).
Proof. unfold hessian_2x2. destruct (f ps x y); split; repeat constructor. Qed.

Lemma shape_outer_2x2 l a ps x y cr : has_shape 2 2 (outer_2x2 l a ps x y cr).
Proof. unfold outer_2x2. destruct (l x y); split; repeat constructor. Qed.

Lemma loss_hessian_is_functional_plus_outer_witness :
  ∃ g H_L H_F H_outer,
    run (small "mse") = Ok g
    ∧ g !! "H_L" = Some (VMat H_L) ∧ g !! "H_F" = Some (VMat H_F)
    ∧ g !! "H_outer" = Some (VMat H_outer)
    ∧ H_L = madd H_F H_outer.
Proof.
  destruct (run_small "mse") as [g Hg]; [by eexists|].
  destruct (loss_hessian_is_functional_plus_outer (small "mse") g)
    as (HL & HF & HO & H1 & H2 & H3 & _ & H4);
    [intros; apply shape_hessian_2x2|intros; apply shape_outer_2x2|exact Hg|].
  exists g, HL, HF, HO. auto.
Defined.

Lemma batch_order_invariance_witness :
  ∃ g1 g2,
    measure (small "mse") ∅ = Ok g1
    ∧ measure (Collaborators0 := with_loader Z_collaborators one_by_one_rev)
        (small "mse") ∅ = Ok g2
    ∧ g2 !! "H_L" = g1 !! "H_L" ∧ g2 !! "rank_L" = g1 !! "rank_L".
Proof.
  destruct (measure_ok (small "mse")) as [g1 Hg1]; [left; by eexists|done..|].
  destruct (batch_order_invariance Z_collaborators one_by_one_rev
              (small "mse") g1) as (g2 & Hg2 & Hagree);
    [apply reverse_Permutation|exact Hg1|].
  exists g1, g2. split; [exact Hg1|]. split; [exact Hg2|].
  split; apply Hagree; solve_names.
Defined.

Lemma unknown_loss_name_is_a_name_error_witness :
  run (small "tanh") = Raise (NameError "loss_params").
Proof.
  apply (unknown_loss_name_is_a_name_error (small "tanh")); done.
Defined.

Lemma class_decrement_is_local_witness :
  ∃ g, run (small "cross") = Ok g
    ∧ g !! "classes" = Some (VInt 0) ∧ g !! "p" = Some (VInt 2).
Proof.
  destruct (run_small "cross") as [g Hg]; [by eexists|].
  destruct (class_decrement_is_local (small "cross") g Hg)
    as (g1 & f & _ & _ & _ & Hk & _ & _ & Hp & _).
  exists g. split; [exact Hg|]. split; [exact Hk|exact Hp].
Defined.

Lemma loss_forms_witness :
  call_loss (Fn_loss Mse) [[3; 1]] [[1; 1]] = Ok (t_half * 4).
Proof.
  destruct (proj1 (proj2 (proj2 loss_forms)) 1%nat 2%nat [[3; 1]] [[1; 1]])
    as [Hmse _]; [split; repeat constructor..|].
  rewrite Hmse. reflexivity.
Defined.

Lemma accumulators_lifecycle_witness :
  ∃ g, run (small "mse") = Ok g
    ∧ g !! "cov" = Some (VMat [[30]])
    ∧ ∃ H, g !! "H_L" = Some (VMat H) ∧ has_shape 2 2 H.
Proof.
  destruct (run_small "mse") as [g Hg]; [by eexists|].
  destruct (proj1 accumulators_lifecycle (small "mse") g Hg)
    as (f & Hcov & HL & _).
  exists g. split; [exact Hg|]. split; [exact Hcov|].
  eexists. split; [exact HL|].
  apply has_shape_accumulate; [apply has_shape_zeros|].
  intros b. apply shape_hessian_2x2.
Defined.

(** ** The recorded run

    With the hyperparameters of the notebook the network has 275
    parameters, and from a covariance of full rank 25 the last cell computes
    the predictions 175, 150 and 250 that the notebook shows.  The measured
    ranks themselves come out of the numerical linear algebra and are taken
    here as they were printed. *)

Lemma reference_total_params : total_params reference_config = 275.
Proof. reflexivity. Qed.

Lemma reference_predictions :
  bounds 25 (effective_classes (cfg_loss_name reference_config)
               (cfg_classes reference_config))
    (cfg_widths reference_config)
  = Ok {| val_s := 10; val_q := 5; val_pred_F := 175;
          val_pred_outer := 150; val_pred_L := 250 |}.
Proof. reflexivity. Qed.

Lemma reference_output :
  (g ← cell_bounds (recorded_namespace "mse"); Ok (g !! stdout))
  = Ok (Some (VOut recorded_output)).
Proof. vm_compute. reflexivity. Qed.

(** The printed prediction for the outer product, 150, is met by no rank of
    a 25 by 25 covariance other than 25. *)
Lemma reference_rank_cov r pr :
  0 ≤ r ≤ 25 → bounds r 10 [5; 10] = Ok pr → val_pred_outer pr = 150 → r = 25.
Proof.
  intros Hr Hb HO.
  assert (Int64.in_range r = true) as Hin
    by (apply Int64Facts.in_range_spec; unfold Int64.min_int, Int64.max_int; lia).
  destruct (bounds_exact r 10 [5; 10]) as [Hmin Hex];
    [done|done|repeat constructor|done|done|].
  revert Hex Hmin. cbv zeta. unfold min_all. cbn [foldl].
  replace (py_sum [5; 10]) with 15 by reflexivity.
  replace (py_len [5; 10] + 1) with 3 by reflexivity.
  set (q := Z.min (Z.min (Z.min r 10) 5) 10). intros Hex _.
  assert (0 ≤ q ≤ 5) by lia.
  rewrite Hex in Hb.
  - injection Hb as <-. cbn in HO. nia.
  - apply Int64Facts.in_range_spec. unfold Int64.min_int, Int64.max_int. nia.
  - apply Int64Facts.in_range_spec. unfold Int64.min_int, Int64.max_int. nia.
  - apply Int64Facts.in_range_spec. unfold Int64.min_int, Int64.max_int. nia.
Qed.

(** * Further properties of the cells *)

(** ** The parameter count *)

Lemma adjacent_products_pairs l :
  adjacent_products l = zip_with Z.mul l (drop 1 l).
Proof.
  induction l as [|a [|b l] IH]; [done..|].
  rewrite adjacent_products_cons, IH. done.
Qed.

Lemma zip_with_snoc_l {A B C : Type} (f : A → B → C) l x k :
  (length k ≤ length l)%nat → zip_with f (l ++ [x]) k = zip_with f l k.
Proof.
  revert k. induction l as [|a l IH]; intros [|b k] Hlen; cbn in *; try done.
  - lia.
  - f_equal. apply IH. lia.
Qed.

(** X1.  The parameter count [p] of the hyperparameter cell pairs every
    layer size with the next one: it is the sum of the products of the
    input-side sizes [dim, m_1, ..., m_n] with the output-side sizes
    [m_1, ..., m_n, classes].  The comprehension reads no index outside
    [all_widths]; without hidden layers [p] is [dim * classes]. *)
Theorem parameter_count_pairs_consecutive_layers c :
  total_params c
  = py_sum (zip_with Z.mul (cfg_dim c :: cfg_widths c)
              (cfg_widths c ++ [cfg_classes c]))
  ∧ (cfg_widths c = [] → total_params c = cfg_dim c * cfg_classes c).
Proof.
  split.
  - unfold total_params. rewrite adjacent_products_pairs. cbn [app drop].
    rewrite drop_0.
    change (cfg_dim c :: cfg_widths c ++ [cfg_classes c])
      with ((cfg_dim c :: cfg_widths c) ++ [cfg_classes c]).
    rewrite zip_with_snoc_l; [done|]. rewrite length_app. cbn. lia.
  - unfold total_params. intros ->. reflexivity.
Qed.

(** ** Relations between the three bounds *)

Lemma layer_products_lower q ws : ∀ a k0,
  0 ≤ q → q ≤ a → q ≤ k0 → Forall (λ m, q ≤ m) ws →
  q * a + 2 * q * py_sum ws + q * k0 - (py_len ws + 1) * q ^ 2
  ≤ py_sum (adjacent_products (a :: ws ++ [k0])).
Proof.
  induction ws as [|m ws IH]; intros a k0 Hq Ha Hk Hws.
  - cbn. unfold py_len. cbn.
    pose proof (Z.mul_nonneg_nonneg (a - q) (k0 - q)). rewrite Z.pow_2_r. lia.
  - apply Forall_cons in Hws as [Hm Hws].
    specialize (IH m k0 Hq Hm Hk Hws).
    change ((m :: ws) ++ [k0]) with (m :: ws ++ [k0]).
    rewrite adjacent_products_cons, !py_sum_cons.
    unfold py_len in *. rewrite length_cons, Nat2Z.inj_succ.
    pose proof (Z.mul_nonneg_nonneg (a - q) (m - q)).
    rewrite Z.pow_2_r in *. lia.
Qed.

Lemma py_sum_lower q ws : Forall (λ m, q ≤ m) ws → py_len ws * q ≤ py_sum ws.
Proof.
  induction 1 as [|m ws Hm _ IH]; [done|].
  rewrite py_sum_cons. unfold py_len in *.
  rewrite length_cons, Nat2Z.inj_succ. lia.
Qed.

Lemma min_all_facts r k ws :
  let q := min_all r k ws in
  q ≤ Z.min r k ∧ Forall (λ m, q ≤ m) ws
  ∧ (0 ≤ r → 0 ≤ k → Forall (λ m, 0 ≤ m) ws → 0 ≤ q).
Proof.
  intros q. destruct (min_all_least r k ws) as [Hin Hle]. fold q in Hin, Hle.
  split; [|split].
  - pose proof (Hle r ltac:(solve_names)). pose proof (Hle k ltac:(solve_names)).
    lia.
  - apply Forall_forall. intros m Hm. apply Hle. solve_names.
  - intros Hr Hk Hws. rewrite Forall_forall in Hws.
    rewrite !elem_of_cons in Hin. destruct Hin as [->| [->|Hin]]; auto.
Qed.

(** The products that order the bounds of a network with input size [d],
    hidden sizes [ws] and output size [k0], for a covariance rank [r] and a
    class count [k] within these sizes. *)
Lemma network_bounds d k0 ws r k :
  1 ≤ d → 1 ≤ k0 → Forall (λ m, 1 ≤ m) ws → 0 ≤ r ≤ d → 0 ≤ k ≤ k0 →
  let p := py_sum (adjacent_products ([d] ++ ws ++ [k0])) in
  let s := Z.min r k in
  let q := min_all r k ws in
  0 ≤ q ∧ q ≤ s
  ∧ 0 ≤ q * (d - s) ∧ 0 ≤ q * (k0 - s) ∧ 0 ≤ q * (py_sum ws - py_len ws * q)
  ∧ 0 ≤ q * (s - q) ∧ 0 ≤ py_len ws * (q * q) ∧ 0 ≤ q * q
  ∧ 0 ≤ q * (d - r) ∧ 0 ≤ q * (k0 - k) ∧ 0 ≤ q * (r - s) ∧ 0 ≤ q * (k - s)
  ∧ 0 ≤ (r - q) * (k - q)
  ∧ q * d + 2 * q * py_sum ws + q * k0 - (py_len ws + 1) * (q * q) ≤ p.
Proof.
  intros Hd Hk0 Hws Hr Hk p s q.
  destruct (min_all_facts r k ws) as (Hqs & Hqw & Hq0). fold q in Hqs, Hqw, Hq0.
  assert (0 ≤ q) as Hq.
  { apply Hq0; [lia..|]. eapply Forall_impl; [exact Hws|]. cbv beta. lia. }
  pose proof (py_sum_lower q ws Hqw) as Hsum.
  pose proof (layer_products_lower q ws d k0 Hq ltac:(lia) ltac:(lia) Hqw) as HL.
  rewrite Z.pow_2_r in HL.
  assert (0 ≤ py_len ws) by (unfold py_len; lia).
  repeat split; try (apply Z.mul_nonneg_nonneg; lia); try lia.
  exact HL.
Qed.

(** X2.  For a network with positive layer sizes and fewer than [2^61]
    parameters, a covariance rank between 0 and [dim] and a class count
    between 0 and [classes], the last cell's three predictions lie between
    0 and the parameter count [p], the size of the Hessians whose rank
    they bound. *)
Theorem predictions_within_parameter_count d k0 ws r k :
  1 ≤ d → 1 ≤ k0 → Forall (λ m, 1 ≤ m) ws → 0 ≤ r ≤ d → 0 ≤ k ≤ k0 →
  let p := py_sum (adjacent_products ([d] ++ ws ++ [k0])) in
  p < 2 ^ 61 →
  ∃ pr, bounds r k ws = Ok pr
    ∧ 0 ≤ val_pred_F pr ≤ p ∧ 0 ≤ val_pred_outer pr ≤ p
    ∧ 0 ≤ val_pred_L pr ≤ p.
Proof.
  intros Hd Hk0 Hws Hr Hk p Hp.
  pose proof (bounds_exact_for_networks d k0 ws r k Hd Hk0 Hws Hr Hk Hp) as Hb.
  pose proof (network_bounds d k0 ws r k Hd Hk0 Hws Hr Hk) as Hn.
  cbv zeta in Hb, Hn. fold p in Hn.
  eexists. split; [exact Hb|].
  cbn [val_pred_F val_pred_outer val_pred_L].
  rewrite Z.pow_2_r.
  generalize dependent (min_all r k ws). intros q _ Hn.
  generalize dependent (Z.min r k). intros s Hn.
  generalize dependent (py_sum ws). intros sw Hn.
  generalize dependent (py_len ws). intros n Hn.
  clearbody p. lia.
Qed.

Lemma predictions_within_parameter_count_witness :
  ∃ pr, bounds 25 10 [5; 10] = Ok pr
    ∧ 0 ≤ val_pred_F pr ≤ 275 ∧ 0 ≤ val_pred_outer pr ≤ 275
    ∧ 0 ≤ val_pred_L pr ≤ 275.
Proof.
  apply (predictions_within_parameter_count 25 10 [5; 10] 25 10);
    [lia|lia|repeat constructor; lia|lia|lia|reflexivity].
Defined.

(** X3.  Under the same conditions the bound for the loss Hessian is at
    most the sum of the bounds for the functional Hessian and for the outer
    product (the correction [q * (q - 2 * s)] is never positive), and the
    two are equal exactly when [q = 0]. *)
Theorem loss_bound_at_most_sum_of_parts d k0 ws r k :
  1 ≤ d → 1 ≤ k0 → Forall (λ m, 1 ≤ m) ws → 0 ≤ r ≤ d → 0 ≤ k ≤ k0 →
  py_sum (adjacent_products ([d] ++ ws ++ [k0])) < 2 ^ 61 →
  ∃ pr, bounds r k ws = Ok pr
    ∧ val_pred_L pr ≤ val_pred_F pr + val_pred_outer pr
    ∧ (val_pred_L pr = val_pred_F pr + val_pred_outer pr ↔ val_q pr = 0).
Proof.
  intros Hd Hk0 Hws Hr Hk Hp.
  pose proof (bounds_exact_for_networks d k0 ws r k Hd Hk0 Hws Hr Hk Hp) as Hb.
  pose proof (network_bounds d k0 ws r k Hd Hk0 Hws Hr Hk) as Hn.
  cbv zeta in Hb, Hn.
  eexists. split; [exact Hb|].
  cbn [val_pred_F val_pred_outer val_pred_L val_q].
  destruct Hn as (Hq & Hqs & _).
  generalize dependent (min_all r k ws). intros q _ Hq Hqs.
  generalize dependent (Z.min r k). intros s Hqs.
  assert (0 ≤ q * (2 * s - q)) as H1 by (apply Z.mul_nonneg_nonneg; lia).
  split; [lia|]. split.
  - intros E. assert (q * (2 * s - q) = 0) as E0 by lia.
    apply Z.mul_eq_0 in E0. lia.
  - intros ->. lia.
Qed.

Lemma loss_bound_at_most_sum_of_parts_witness :
  ∃ pr, bounds 25 10 [5; 10] = Ok pr
    ∧ val_pred_L pr ≤ val_pred_F pr + val_pred_outer pr.
Proof.
  destruct (loss_bound_at_most_sum_of_parts 25 10 [5; 10] 25 10)
    as (pr & Hb & Hle & _);
    [lia|lia|repeat constructor; lia|lia|lia|reflexivity|].
  exists pr. split; [exact Hb|exact Hle].
Defined.

(** X4.  Under the same conditions the bound for the outer product is at
    most [rank_cov * classes], and it reaches this product exactly when
    [q = s], that is when no hidden layer is narrower than
    [min(rank_cov, classes)]. *)
Theorem outer_bound_at_most_rank_times_classes d k0 ws r k :
  1 ≤ d → 1 ≤ k0 → Forall (λ m, 1 ≤ m) ws → 0 ≤ r ≤ d → 0 ≤ k ≤ k0 →
  py_sum (adjacent_products ([d] ++ ws ++ [k0])) < 2 ^ 61 →
  ∃ pr, bounds r k ws = Ok pr
    ∧ val_pred_outer pr ≤ r * k
    ∧ (val_pred_outer pr = r * k ↔ val_q pr = val_s pr).
Proof.
  intros Hd Hk0 Hws Hr Hk Hp.
  pose proof (bounds_exact_for_networks d k0 ws r k Hd Hk0 Hws Hr Hk Hp) as Hb.
  pose proof (network_bounds d k0 ws r k Hd Hk0 Hws Hr Hk) as Hn.
  cbv zeta in Hb, Hn.
  eexists. split; [exact Hb|].
  cbn [val_pred_outer val_q val_s].
  destruct Hn as (Hq & Hqs & _ & _ & _ & _ & _ & _ & _ & _ & _ & _ & Hrk & _).
  generalize dependent (min_all r k ws). intros q _ Hq Hqs Hrk.
  split; [lia|]. split.
  - intros E. assert ((r - q) * (k - q) = 0) as E0 by lia.
    apply Z.mul_eq_0 in E0. lia.
  - intros ->. assert ((r - Z.min r k) * (k - Z.min r k) = 0); [|lia].
    apply Z.mul_eq_0. lia.
Qed.

Lemma outer_bound_at_most_rank_times_classes_witness :
  ∃ pr, bounds 25 10 [5; 10] = Ok pr ∧ val_pred_outer pr ≤ 25 * 10.
Proof.
  destruct (outer_bound_at_most_rank_times_classes 25 10 [5; 10] 25 10)
    as (pr & Hb & Hle & _);
    [lia|lia|repeat constructor; lia|lia|lia|reflexivity|].
  exists pr. split; [exact Hb|exact Hle].
Defined.

(** ** Failure of the bounds *)

Lemma of_int_error z e : Int64.of_int z = Raise e → e = OverflowError.
Proof. unfold Int64.of_int. destruct (Int64.in_range z); congruence. Qed.

Lemma mapR_of_int_error l e :
  mapR Int64.of_int l = Raise e → e = OverflowError.
Proof.
  induction l as [|z l IH]; [done|]. cbn [mapR].
  destruct (Int64.of_int z) as [|e'] eqn:E; cbn [mbind result_bind].
  - destruct (mapR Int64.of_int l) as [|e']; cbn [mbind result_bind]; [done|].
    intros [= ->]. by apply IH.
  - intros [= ->]. by apply of_int_error in E.
Qed.

Lemma bounds_error_is_overflow r k ws e :
  bounds r k ws = Raise e → e = OverflowError.
Proof.
  unfold bounds, expr_s, expr_q, expr_pred_F, expr_pred_outer.
  destruct (jnp_array [r; k]) as [a|e1] eqn:E1; cbn [mbind result_bind].
  2:{ intros [= <-]. by apply (mapR_of_int_error [r; k]). }
  apply jnp_array_inv in E1 as [-> _]. cbn [jnp_min].
  destruct (jnp_array ([r; k] ++ ws)) as [a|e2] eqn:E2; cbn [mbind result_bind].
  2:{ intros [= <-]. by apply (mapR_of_int_error ([r; k] ++ ws)). }
  apply jnp_array_inv in E2 as [-> _]. cbn [app jnp_min mbind result_bind].
  destruct (Int64.of_int (py_sum ws)) eqn:E3; cbn [mbind result_bind].
  2:{ intros [= <-]. by apply of_int_error in E3. }
  destruct (Int64.of_int (py_len ws + 1)) eqn:E4; cbn [mbind result_bind].
  2:{ intros [= <-]. by apply of_int_error in E4. }
  destruct (Int64.of_int k) eqn:E5; cbn [mbind result_bind]; [done|].
  intros [= <-]. by apply of_int_error in E5.
Qed.

(** X5.  The five assignments of the last cell succeed exactly when
    [rank_cov], [classes], every width, [sum(widths)] and [len(widths)+1]
    are 64-bit integers; when they fail the exception is the overflow of a
    conversion.  [jnp.min] is never applied to an empty array. *)
Theorem bounds_fail_only_by_overflow r k ws :
  ((∃ pr, bounds r k ws = Ok pr)
   ↔ Int64.in_range r = true ∧ Int64.in_range k = true
     ∧ Forall (λ z, Int64.in_range z = true) ws
     ∧ Int64.in_range (py_sum ws) = true
     ∧ Int64.in_range (py_len ws + 1) = true)
  ∧ ∀ e, bounds r k ws = Raise e → e = OverflowError.
Proof.
  split.
  - split.
    + intros [pr Hb]. by apply bounds_inv in Hb.
    + intros (Hr & Hk & Hws & Hs & Hn). eexists. by apply bounds_wrap.
  - intros e. apply bounds_error_is_overflow.
Qed.

(** X6.  When none of [rank_cov], [classes] and the widths is negative and
    one of them is 0 (a layer of width 0, or cross-entropy with a single
    class, whose class count is decremented to 0), [q] is 0 and the three
    predictions are 0. *)
Theorem zero_bottleneck_predicts_rank_zero r k ws pr :
  0 ≤ r → 0 ≤ k → Forall (λ m, 0 ≤ m) ws → 0 ∈ r :: k :: ws →
  bounds r k ws = Ok pr →
  val_q pr = 0 ∧ val_pred_F pr = 0 ∧ val_pred_outer pr = 0 ∧ val_pred_L pr = 0.
Proof.
  intros Hr Hk Hws H0 Hb.
  pose proof (bounds_inv _ _ _ _ Hb) as (Ir & Ik & Iws & Is & In).
  pose proof (bounds_wrap r k ws Ir Ik Iws Is In) as Hw. cbv zeta in Hw.
  destruct (min_all_least r k ws) as [_ Hle].
  destruct (min_all_facts r k ws) as (_ & _ & Hq0).
  assert (min_all r k ws = 0) as Eq.
  { specialize (Hle 0 H0). specialize (Hq0 Hr Hk Hws). lia. }
  rewrite Eq in Hw. rewrite Hw in Hb. injection Hb as <-.
  cbn [val_q val_pred_F val_pred_outer val_pred_L].
  assert (∀ s, ideal_F 0 s ws = 0) as EF by (intros; unfold ideal_F; ring).
  assert (ideal_outer r k 0 = 0) as EO by (unfold ideal_outer; ring).
  unfold ideal_L. rewrite EF, EO. done.
Qed.

Lemma zero_bottleneck_predicts_rank_zero_witness :
  ∃ pr, bounds 25 (effective_classes "cross" 1) [5; 10] = Ok pr
    ∧ val_pred_L pr = 0.
Proof.
  eexists. split; [reflexivity|].
  apply (zero_bottleneck_predicts_rank_zero 25 0 [5; 10]);
    [lia|lia| |solve_names|reflexivity].
  repeat constructor; lia.
Defined.

Lemma run_predictions_exact_witness :
  ∃ g, run (small "mse") = Ok g
    ∧ g !! "pred_F" = Some (VI64 2) ∧ g !! "pred_outer" = Some (VI64 1)
    ∧ g !! "pred_L" = Some (VI64 2).
Proof.
  destruct (run_small "mse") as [g Hg]; [by eexists|].
  destruct (run_predictions_exact (small "mse") g Hg)
    as (_ & _ & HF & HO & HL);
    [done|done|repeat constructor; done|done|split; by vm_compute|].
  exists g. split; [exact Hg|]. split; [exact HF|]. split; [exact HO|exact HL].
Defined.

(** ** Symmetry and shape of the accumulated matrices *)

Section Symmetry.
Context {T : Type} `{!Arith T}.

Lemma entry_zeros m n i j :
  entry (T := T) (zeros m n) i j
  = if decide (i < m ∧ j < n)%nat then Some t_zero else None.
Proof.
  unfold entry, zeros.
  destruct (decide (i < m)%nat) as [Hi|Hi].
  - rewrite lookup_replicate_2 by done. cbn.
    destruct (decide (j < n)%nat) as [Hj|Hj].
    + rewrite lookup_replicate_2 by done. by rewrite decide_True.
    + rewrite (proj1 (lookup_replicate_None n _ j)) by lia.
      by rewrite decide_False by tauto.
  - rewrite (proj1 (lookup_replicate_None m _ i)) by lia.
    by rewrite decide_False by tauto.
Qed.

Lemma symmetric_zeros n : is_symmetric (T := T) (zeros n n).
Proof.
  intros i j. rewrite !entry_zeros.
  destruct (decide (i < n ∧ j < n)%nat), (decide (j < n ∧ i < n)%nat); tauto.
Qed.

Lemma entry_mzip (f : T → T → T) A B i j :
  entry (mzip f A B) i j = a ← entry A i j; b ← entry B i j; Some (f a b).
Proof.
  unfold entry, mzip. rewrite lookup_zip_with.
  destruct (A !! i) as [ra|]; [|done]. cbn.
  destruct (B !! i) as [rb|]; cbn.
  - by rewrite lookup_zip_with.
  - by destruct (ra !! j).
Qed.

Lemma symmetric_mzip (f : T → T → T) A B :
  is_symmetric A → is_symmetric B → is_symmetric (mzip f A B).
Proof. intros HA HB i j. by rewrite !entry_mzip, (HA i j), (HB i j). Qed.

Lemma symmetric_accumulate {B} (term : B → matrix T) A0 bl :
  is_symmetric A0 → (∀ b, b ∈ bl → is_symmetric (term b)) →
  is_symmetric (accumulate term A0 bl).
Proof.
  revert A0. induction bl as [|b bl IH]; intros A0 HA Hterm; [done|].
  cbn. apply IH.
  - apply symmetric_mzip; [done|]. apply Hterm. left.
  - intros b' Hb'. apply Hterm. by right.
Qed.

Lemma dot_comm (u v : list T) :
  (∀ a b : T, t_mul a b = t_mul b a) → dot u v = dot v u.
Proof.
  intros Hmul. unfold dot. f_equal.
  revert v. induction u as [|a u IH]; intros [|b v]; cbn; [done..|].
  by rewrite Hmul, IH.
Qed.

Lemma entry_matmul (A B : matrix T) i j :
  entry (matmul A B) i j = r ← A !! i; c ← transpose B !! j; Some (dot r c).
Proof.
  unfold entry, matmul. rewrite list_lookup_fmap.
  destruct (A !! i) as [r|]; [|done]. cbn.
  rewrite list_lookup_fmap. by destruct (transpose B !! j).
Qed.

Lemma symmetric_cov_term (b : matrix T * matrix T) :
  (∀ a b : T, t_mul a b = t_mul b a) → is_symmetric (cov_term b).
Proof.
  intros Hmul i j. unfold cov_term. rewrite !entry_matmul.
  destruct (transpose b.1 !! i) as [r|], (transpose b.1 !! j) as [c|]; cbn;
    [|done..].
  by rewrite (dot_comm r c).
Qed.

Lemma Forall_zip_with_cons (n : nat) (r : list T) (M : matrix T) :
  Forall (λ row, length row = n) M →
  Forall (λ row, length row = S n) (zip_with cons r M).
Proof.
  intros HM. revert r.
  induction HM as [|row M Hrow _ IH]; intros [|x r]; cbn; constructor; cbn; auto.
Qed.

Lemma has_shape_transpose (X : matrix T) : ∀ r n,
  Forall (λ row, length row = n) (r :: X) →
  has_shape n (S (length X)) (transpose (r :: X)).
Proof.
  induction X as [|r' X IH]; intros r n Hrows.
  - apply Forall_cons in Hrows as [Hr _]. cbn. split.
    + by rewrite length_map.
    + apply Forall_fmap, Forall_true. done.
  - apply Forall_cons in Hrows as [Hr Hrows].
    destruct (IH r' n Hrows) as [Hlen Hall].
    change (transpose (r :: r' :: X)) with (zip_with cons r (transpose (r' :: X))).
    split.
    + rewrite length_zip_with. lia.
    + cbn [length]. by apply Forall_zip_with_cons.
Qed.

Lemma has_shape_matmul (A B : matrix T) m n :
  length A = m → length (transpose B) = n → has_shape m n (matmul A B).
Proof.
  intros HA HB. unfold matmul. split.
  - by rewrite length_map.
  - apply Forall_fmap, Forall_true. intros r. cbn. by rewrite length_map.
Qed.

Lemma has_shape_cov_term (b : matrix T * matrix T) m n :
  has_shape (S m) n b.1 → has_shape n n (cov_term b).
Proof.
  intros [Hlen Hrows]. unfold cov_term.
  destruct b.1 as [|r X]; [done|].
  destruct (has_shape_transpose X r n Hrows) as [Ht _].
  by apply has_shape_matmul.
Qed.

Lemma has_shape_accumulate_in {B} (term : B → matrix T) m n A0 bl :
  has_shape m n A0 → (∀ b, b ∈ bl → has_shape m n (term b)) →
  has_shape m n (accumulate term A0 bl).
Proof.
  revert A0. induction bl as [|b bl IH]; intros A0 HA Hterm; [done|].
  cbn. apply IH.
  - apply has_shape_mzip; [done|]. apply Hterm. left.
  - intros b' Hb'. apply Hterm. by right.
Qed.

Lemma has_shape_app (A B : matrix T) m1 m2 n :
  has_shape m1 n A → has_shape m2 n B → has_shape (m1 + m2) n (A ++ B).
Proof.
  intros [<- HA] [<- HB]. split; [by rewrite length_app|by apply Forall_app].
Qed.

End Symmetry.

(** ** The covariance of several batches *)

Section Gram.
Context {T : Type} `{!Arith T} `{!ExactArith T}.
Hypothesis t_add_zero_l : ∀ a : T, t_add t_zero a = a.

Lemma foldl_add_init (l : list T) a :
  foldl t_add a l = t_add a (foldl t_add t_zero l).
Proof.
  revert a. induction l as [|x l IH]; intros a; cbn.
  - by rewrite t_add_comm, t_add_zero_l.
  - rewrite IH, (IH (t_add t_zero x)), t_add_zero_l. by rewrite t_add_assoc.
Qed.

Lemma dot_app (u1 u2 v1 v2 : list T) :
  length u1 = length v1 →
  dot (u1 ++ u2) (v1 ++ v2) = t_add (dot u1 v1) (dot u2 v2).
Proof.
  intros Hlen. unfold dot. rewrite zip_with_app by done.
  by rewrite foldl_app, foldl_add_init.
Qed.

Lemma zip_with_cons_app (r : list T) (A B : matrix T) :
  zip_with cons r (zip_with app A B) = zip_with app (zip_with cons r A) B.
Proof.
  revert A B. induction r as [|x r IH]; intros [|a A] [|b B]; cbn; try done.
  by rewrite IH.
Qed.

Lemma zip_with_singleton_app (r : list T) (M : matrix T) :
  zip_with app (map (λ x, [x]) r) M = zip_with cons r M.
Proof.
  revert M. induction r as [|x r IH]; intros [|c M]; cbn; try done.
  by rewrite IH.
Qed.

Lemma transpose_app (X1 X2 : matrix T) :
  X1 ≠ [] → X2 ≠ [] →
  transpose (X1 ++ X2) = zip_with app (transpose X1) (transpose X2).
Proof.
  intros H1 H2. destruct X2 as [|r2 X2]; [done|]. clear H2.
  induction X1 as [|r X1 IH]; [done|]. clear H1.
  destruct X1 as [|r' X1].
  - change (transpose ([r] ++ r2 :: X2))
      with (zip_with cons r (transpose (r2 :: X2))).
    change (transpose [r]) with (map (λ x : T, [x]) r).
    by rewrite zip_with_singleton_app.
  - change (transpose ((r :: r' :: X1) ++ r2 :: X2))
      with (zip_with cons r (transpose ((r' :: X1) ++ r2 :: X2))).
    rewrite IH by done.
    change (transpose (r :: r' :: X1))
      with (zip_with cons r (transpose (r' :: X1))).
    apply zip_with_cons_app.
Qed.

Lemma map_dot_app (r1 r2 : list T) (T1 T2 : matrix T) :
  Forall (λ c, length c = length r1) T1 →
  map (dot (r1 ++ r2)) (zip_with app T1 T2)
  = zip_with t_add (map (dot r1) T1) (map (dot r2) T2).
Proof.
  intros H1. revert T2.
  induction H1 as [|c1 T1 Hc _ IH]; intros [|c2 T2]; cbn; try done.
  by rewrite IH, dot_app.
Qed.

Lemma gram_app (T1 T2 T1' T2' : matrix T) m :
  Forall (λ c, length c = m) T1 → Forall (λ c, length c = m) T1' →
  map (λ r, map (dot r) (zip_with app T1' T2')) (zip_with app T1 T2)
  = zip_with (zip_with t_add) (map (λ r, map (dot r) T1') T1)
      (map (λ r, map (dot r) T2') T2).
Proof.
  intros H1 H1'. revert T2.
  induction H1 as [|c1 T1 Hc _ IH]; intros [|c2 T2]; cbn; try done.
  rewrite IH. f_equal. apply map_dot_app.
  eapply Forall_impl; [exact H1'|]. cbv beta. congruence.
Qed.

(** The contributions of two batches add up to the contribution of the
    batch that holds the rows of both. *)
Lemma cov_term_app (X1 X2 Y1 Y2 : matrix T) m1 m2 n :
  has_shape (S m1) n X1 → has_shape (S m2) n X2 →
  madd (cov_term (X1, Y1)) (cov_term (X2, Y2)) = cov_term (X1 ++ X2, Y1 ++ Y2).
Proof.
  intros [L1 R1] [L2 R2]. unfold cov_term, matmul, madd, mzip. cbn [fst].
  destruct X1 as [|r1 X1]; [done|]. destruct X2 as [|r2 X2]; [done|].
  rewrite (transpose_app (r1 :: X1) (r2 :: X2)) by done.
  destruct (has_shape_transpose X1 r1 n R1) as [_ Hrows].
  symmetry. by eapply gram_app.
Qed.

Lemma zip_with_add_zeros (n : nat) (r : list T) :
  length r = n → zip_with t_add (replicate n t_zero) r = r.
Proof.
  intros <-. induction r as [|x r IH]; cbn; [done|].
  by rewrite t_add_zero_l, IH.
Qed.

Lemma madd_zeros_l (m n : nat) (A : matrix T) :
  has_shape m n A → madd (zeros m n) A = A.
Proof.
  intros [<- Hrows]. unfold madd, mzip, zeros.
  induction Hrows as [|r A Hr _ IH]; cbn; [done|].
  by rewrite zip_with_add_zeros, IH.
Qed.

Lemma accumulate_cov_concat (bl : list (matrix T * matrix T)) n :
  ∀ X0 Y0 m0,
  has_shape (S m0) n X0 →
  (∀ b, b ∈ bl → ∃ m, has_shape (S m) n b.1) →
  accumulate cov_term (cov_term (X0, Y0)) bl
  = cov_term (X0 ++ concat (map fst bl), Y0).
Proof.
  induction bl as [|[X Y] bl IH]; intros X0 Y0 m0 H0 Hbl.
  - cbn. by rewrite app_nil_r.
  - destruct (Hbl (X, Y) ltac:(left)) as [m Hm]. cbn [fst] in Hm.
    cbn [accumulate foldl map concat fst].
    rewrite (cov_term_app X0 X Y0 Y m0 m n H0 Hm).
    fold (accumulate cov_term (cov_term (X0 ++ X, Y0 ++ Y)) bl).
    rewrite (IH (X0 ++ X) (Y0 ++ Y) (m0 + S m)%nat).
    + by rewrite <- app_assoc.
    + change (S (m0 + S m)) with (S m0 + S m)%nat. by apply has_shape_app.
    + intros b Hb. apply Hbl. by right.
Qed.

End Gram.

(** ** More on the cells *)

Section MoreCells.
Context {T : Type} `{!Arith T} `{!LossOps T} `{!Collaborators T}.

Lemma then_inv (s1 s2 : stmt (T := T)) g g' :
  (s1 ;; s2)%stmt g = Ok g' → ∃ g1, s1 g = Ok g1 ∧ s2 g1 = Ok g'.
Proof. unfold then_. destruct (s1 g) as [g1|]; [eauto|done]. Qed.

Lemma setup_modifies c :
  modifies (T := T) (setup c)
    ["n_train"; "dim"; "widths"; "classes"; "bs"; "all_widths"; "p"; "key";
     "data"; "train_loader"; "init"; "init_fn"; "apply_fn"; "_"; "params";
     "loss_name"; "cross"; "loss"; "loss_params"].
Proof.
  unfold setup, cell_hyperparameters, cell_data, cell_network, cell_loss.
  solve_modifies.
Qed.

Lemma cell_loss_name c (g g' : globals T) :
  cell_loss c g = Ok g' → g' !! "loss_name" = Some (VStr (cfg_loss_name c)).
Proof.
  unfold cell_loss. intros H. apply then_inv in H as (g1 & H1 & H2).
  injection H1 as <-.
  match type of H2 with
  | ?s _ = _ =>
      assert (modifies (T := T) s ["cross"; "loss"; "loss_params"]) as M
        by solve_modifies
  end.
  rewrite (M _ _ H2) by solve_names. by rewrite lookup_insert_eq.
Qed.

(** The accumulation cell on any namespace that binds what it reads. *)
Lemma cell_accumulate_spec (g : globals T) p d bl lp lf af ps cr :
  g !! "p" = Some (VInt p) → g !! "dim" = Some (VInt d) →
  g !! "train_loader" = Some (VLoader bl) →
  g !! "loss_params" = Some (VFun lp) → g !! "loss" = Some (VFun lf) →
  g !! "apply_fn" = Some (VFun af) → g !! "params" = Some (VMats ps) →
  g !! "cross" = Some (VBool cr) →
  0 ≤ p → 0 ≤ d →
  let Z0 := zeros (Z.to_nat p) (Z.to_nat p) in
  ∃ g', cell_accumulate g = Ok g'
    ∧ g' !! "cov"
      = Some (VMat (accumulate cov_term (zeros (Z.to_nat d) (Z.to_nat d)) bl))
    ∧ g' !! "H_L" = Some (VMat (accumulate (H_L_term lp af lf ps) Z0 bl))
    ∧ g' !! "H_outer"
      = Some (VMat (accumulate (H_outer_term lf af ps cr) Z0 bl))
    ∧ g' !! "H_F"
      = Some (VMat (msub (accumulate (H_L_term lp af lf ps) Z0 bl)
                      (accumulate (H_outer_term lf af ps cr) Z0 bl))).
Proof.
  intros Hp Hd Hbl Hlp Hlf Haf Hps Hcr Hp0 Hd0 Z0.
  unfold cell_accumulate, init_accumulators, square_zeros,
    accumulation_loop, functional_hessian, jnp_zeros.
  exec.
  destruct (Z.ltb_spec p 0) as [|_]; [lia|]. cbn. exec.
  destruct (Z.ltb_spec d 0) as [|_]; [lia|]. cbn. exec.
  match goal with
  | |- context [for_each loop_body ?bl ?g] =>
      edestruct (loop_bound bl g) as (g' & -> & Hc' & HL' & HO' & Hfr);
        [solve_lookup; reflexivity..|]
  end.
  exec. eexists. split; [done|]. solve_lookup. done.
Qed.

(** The accumulation cell succeeds on the namespace of the cells before
    it whenever a loss is selected or there is no batch. *)
Lemma cell_accumulate_ok c (g0 : globals T) :
  after_setup c g0 →
  is_Some (selected (cfg_loss_name c)) ∨ batches c = [] →
  0 ≤ total_params c → 0 ≤ cfg_dim c →
  ∃ g2, cell_accumulate g0 = Ok g2.
Proof.
  intros [] Hf Hp Hd.
  unfold cell_accumulate, init_accumulators, square_zeros,
    accumulation_loop, functional_hessian, jnp_zeros.
  exec.
  destruct (Z.ltb_spec (total_params c) 0) as [|_]; [lia|]. cbn. exec.
  destruct (Z.ltb_spec (cfg_dim c) 0) as [|_]; [lia|]. cbn. exec.
  destruct Hf as [[f Hsel]|Hb].
  - rewrite Hsel in *. cbn in *.
    match goal with
    | |- context [for_each loop_body ?bl ?g] =>
        edestruct (loop_bound bl g) as (g' & -> & Hc' & HL' & HO' & Hfr);
          [solve_lookup; reflexivity..|]
    end.
    exec. eauto.
  - rewrite Hb. cbn [for_each]. exec. eauto.
Qed.

Lemma print_comparison_console (g : globals T) rF rO rL pF pO pL :
  g !! "rank_F" = Some (VI64 rF) → g !! "rank_outer" = Some (VI64 rO) →
  g !! "rank_L" = Some (VI64 rL) → g !! "pred_F" = Some (VI64 pF) →
  g !! "pred_outer" = Some (VI64 pO) → g !! "pred_L" = Some (VI64 pL) →
  ∃ g', print_comparison g = Ok g'
    ∧ g' !! stdout = Some (VOut (console g ++
        ["Rank of Functional Hessian is " +:+ pretty rF
           +:+ " and the prediction is " +:+ pretty pF;
         "Rank of Gradient Outer Product is " +:+ pretty rO
           +:+ " and the prediction is " +:+ pretty pO;
         "Rank of Loss Hessian is " +:+ pretty rL
           +:+ " and the prediction is " +:+ pretty pL]))
    ∧ ∀ x, x ≠ stdout → g' !! x = g !! x.
Proof.
  intros HrF HrO HrL HpF HpO HpL.
  unfold print_comparison, report, console, stdout.
  exec.
  eexists. split; [done|]. solve_lookup. split.
  - unfold stdout. do 2 f_equal.
    destruct (g !! "<stdout>") as [[]|]; rewrite <- ?app_assoc; reflexivity.
  - intros x Hx. by rewrite !lookup_insert_ne.
Qed.

(** The last cell with what it prints and what it leaves alone. *)
Lemma cell_bounds_console (g : globals T) name r k0 ws rF rO rL :
  g !! "loss_name" = Some (VStr name) → g !! "rank_cov" = Some (VI64 r) →
  g !! "classes" = Some (VInt k0) → g !! "widths" = Some (VInts ws) →
  g !! "rank_F" = Some (VI64 rF) → g !! "rank_outer" = Some (VI64 rO) →
  g !! "rank_L" = Some (VI64 rL) →
  match bounds r (effective_classes name k0) ws with
  | Ok pr =>
      ∃ g', cell_bounds g = Ok g'
        ∧ g' !! "classes" = Some (VInt (effective_classes name k0))
        ∧ g' !! "s" = Some (VI64 (val_s pr))
        ∧ g' !! "q" = Some (VI64 (val_q pr))
        ∧ g' !! "pred_F" = Some (VI64 (val_pred_F pr))
        ∧ g' !! "pred_outer" = Some (VI64 (val_pred_outer pr))
        ∧ g' !! "pred_L" = Some (VI64 (val_pred_L pr))
        ∧ g' !! stdout = Some (VOut (console g ++
            ["Rank of Functional Hessian is " +:+ pretty rF
               +:+ " and the prediction is " +:+ pretty (val_pred_F pr);
             "Rank of Gradient Outer Product is " +:+ pretty rO
               +:+ " and the prediction is " +:+ pretty (val_pred_outer pr);
             "Rank of Loss Hessian is " +:+ pretty rL
               +:+ " and the prediction is " +:+ pretty (val_pred_L pr)]))
        ∧ ∀ x, x ∉ ["classes"; "s"; "q"; "pred_F"; "pred_outer"; "pred_L";
                    stdout] →
               g' !! x = g !! x
  | Raise e => cell_bounds g = Raise e
  end.
Proof.
  intros Hn Hr Hk Hw HrF HrO HrL.
  pose proof (cell_bounds_spec g name r k0 ws rF rO rL Hn Hr Hk Hw HrF HrO HrL)
    as Hc.
  destruct (bounds r (effective_classes name k0) ws) as [pr|e]; [|done].
  destruct Hc as (g' & Hg' & Hk' & Hs & Hq & HpF & HpO & HpL).
  exists g'. do 7 (split; [done|]).
  pose proof (cell_bounds_modifies g g' Hg') as Hfr. split; [|exact Hfr].
  revert Hg'. unfold cell_bounds, then_.
  destruct (adjust_classes g) as [g1|] eqn:H1; [|done]. cbn [mbind result_bind].
  destruct (compute_bounds g1) as [g2|] eqn:H2; [|done]. cbn [mbind result_bind].
  intros H3.
  assert (modifies (T := T) adjust_classes ["classes"]) as M1
    by (unfold adjust_classes; solve_modifies).
  assert (modifies (T := T) compute_bounds
            ["s"; "q"; "pred_F"; "pred_outer"; "pred_L"]) as M2
    by (unfold compute_bounds; solve_modifies).
  assert (modifies (T := T) print_comparison [stdout]) as M3
    by (unfold print_comparison; solve_modifies).
  pose proof (M1 g g1 H1) as F1. pose proof (M2 g1 g2 H2) as F2.
  pose proof (M3 g2 g' H3) as F3.
  destruct (print_comparison_console g2 rF rO rL
              (val_pred_F pr) (val_pred_outer pr) (val_pred_L pr))
    as (g3 & Hg3 & Hout & _).
  1-3: rewrite F2, F1 by solve_names; done.
  1-3: rewrite <- F3 by (unfold stdout; solve_names); done.
  assert (g3 = g') as -> by congruence.
  rewrite Hout. unfold console, stdout.
  rewrite F2, F1 by solve_names. done.
Qed.

(** A completed run, cell by cell. *)
Lemma run_measured c (g : globals T) :
  run c = Ok g →
  ∃ g1 f, measure c ∅ = Ok g1 ∧ cell_bounds g1 = Ok g
    ∧ (selected (cfg_loss_name c) = Some f
       ∨ selected (cfg_loss_name c) = None ∧ batches c = [])
    ∧ 0 ≤ total_params c ∧ 0 ≤ cfg_dim c
    ∧ after_setup c g1 ∧ after_measure c f g1 ∧ after_measure c f g.
Proof.
  intros Hrun. destruct (run_inv c g Hrun) as (g1 & Hm & Hb).
  destruct (measure_inv c g1 Hm) as (f & Hsel & Hp & Hd & Hs & Hmeas).
  pose proof (cell_bounds_modifies g1 g Hb) as Hfr.
  exists g1, f. do 7 (split; [done|]).
  destruct Hmeas. split; rewrite Hfr by solve_names; done.
Qed.

(** X8.  When the multiplication of scalars is commutative, the covariance
    accumulated by a completed run is a symmetric matrix: every
    contribution [batch_input.T @ batch_input], each entry being the sum of
    the products of two columns of the batch, is symmetric, and so is
    their running sum from zero.  No law of addition is used. *)
Theorem covariance_is_symmetric c (g : globals T) :
  (∀ a b : T, t_mul a b = t_mul b a) →
  run c = Ok g →
  ∃ cov, g !! "cov" = Some (VMat cov) ∧ is_symmetric cov.
Proof.
  intros Hmul Hrun.
  destruct (run_measured c g Hrun) as (g1 & f & _ & _ & _ & _ & _ & _ & _ & Hmeas).
  eexists. split; [apply (measured_cov c f g Hmeas)|].
  apply symmetric_accumulate; [apply symmetric_zeros|].
  intros b _. by apply symmetric_cov_term.
Qed.

(** X9.  When [loss_hessian] and [outer_prod] return symmetric matrices,
    the accumulated [H_L] and [H_outer] of a completed run are symmetric,
    and so is their difference [H_F]. *)
Theorem hessians_are_symmetric c (g : globals T) :
  (∀ f ps x y, is_symmetric (loss_hessian f ps x y)) →
  (∀ l a ps x y cr, is_symmetric (outer_prod l a ps x y cr)) →
  run c = Ok g →
  ∃ H_L H_outer H_F,
    g !! "H_L" = Some (VMat H_L) ∧ g !! "H_outer" = Some (VMat H_outer)
    ∧ g !! "H_F" = Some (VMat H_F)
    ∧ is_symmetric H_L ∧ is_symmetric H_outer ∧ is_symmetric H_F.
Proof.
  intros HL HO Hrun.
  destruct (run_measured c g Hrun) as (g1 & f & _ & _ & _ & _ & _ & _ & _ & Hmeas).
  assert (is_symmetric (accumulated_H_L c f)) as SL.
  { apply symmetric_accumulate; [apply symmetric_zeros|]. intros b _. apply HL. }
  assert (is_symmetric (accumulated_H_outer c f)) as SO.
  { apply symmetric_accumulate; [apply symmetric_zeros|]. intros b _. apply HO. }
  do 3 eexists.
  split; [apply (measured_H_L c f g Hmeas)|].
  split; [apply (measured_H_outer c f g Hmeas)|].
  split; [apply (measured_H_F c f g Hmeas)|].
  split; [done|]. split; [done|]. by apply symmetric_mzip.
Qed.

(** X10.  The accumulators keep their shape through the loop: when every
    batch of inputs has at least one row and [dim] columns, and
    [loss_hessian] and [outer_prod] return [p] by [p] matrices, a completed
    run leaves a [dim] by [dim] covariance and [p] by [p] matrices [H_L],
    [H_outer] and [H_F]. *)
Theorem accumulated_matrices_keep_their_shape c (g : globals T) :
  let p := Z.to_nat (total_params c) in
  let d := Z.to_nat (cfg_dim c) in
  (∀ b, b ∈ batches c → ∃ m, has_shape (S m) d b.1) →
  (∀ f ps x y, has_shape p p (loss_hessian f ps x y)) →
  (∀ l a ps x y cr, has_shape p p (outer_prod l a ps x y cr)) →
  run c = Ok g →
  ∃ cov H_L H_outer H_F,
    g !! "cov" = Some (VMat cov) ∧ g !! "H_L" = Some (VMat H_L)
    ∧ g !! "H_outer" = Some (VMat H_outer) ∧ g !! "H_F" = Some (VMat H_F)
    ∧ has_shape d d cov ∧ has_shape p p H_L ∧ has_shape p p H_outer
    ∧ has_shape p p H_F.
Proof.
  intros p d Hb HL HO Hrun.
  destruct (run_measured c g Hrun) as (g1 & f & _ & _ & _ & _ & _ & _ & _ & Hmeas).
  assert (has_shape p p (accumulated_H_L c f)) as SL.
  { apply has_shape_accumulate; [apply has_shape_zeros|]. intros b. apply HL. }
  assert (has_shape p p (accumulated_H_outer c f)) as SO.
  { apply has_shape_accumulate; [apply has_shape_zeros|]. intros b. apply HO. }
  do 4 eexists.
  split; [apply (measured_cov c f g Hmeas)|].
  split; [apply (measured_H_L c f g Hmeas)|].
  split; [apply (measured_H_outer c f g Hmeas)|].
  split; [apply (measured_H_F c f g Hmeas)|].
  split; [|split; [done|split; [done|by apply has_shape_mzip]]].
  apply has_shape_accumulate_in; [apply has_shape_zeros|].
  intros b Hin. destruct (Hb b Hin) as [m Hm]. by eapply has_shape_cov_term.
Qed.

(** X11.  In exact arithmetic the covariance of a completed run does not
    depend on how the samples are grouped into batches: when the loader
    yields at least one batch and every batch of inputs has at least one
    row and [dim] columns, [cov] is [X.T @ X] for the matrix [X] of all
    input rows in the order the loader yields them. *)
Theorem covariance_is_independent_of_batching `{!ExactArith T} c (g : globals T) :
  (∀ a : T, t_add t_zero a = a) →
  batches c ≠ [] →
  (∀ b, b ∈ batches c → ∃ m, has_shape (S m) (Z.to_nat (cfg_dim c)) b.1) →
  run c = Ok g →
  let X := concat (map fst (batches c)) in
  g !! "cov" = Some (VMat (matmul (transpose X) X)).
Proof.
  intros Hzero Hne Hshape Hrun X.
  destruct (run_measured c g Hrun) as (g1 & f & _ & _ & _ & _ & _ & _ & _ & Hmeas).
  rewrite (measured_cov c f g Hmeas). do 2 f_equal.
  unfold accumulated_cov. subst X.
  destruct (batches c) as [|[X0 Y0] bl]; [done|].
  destruct (Hshape (X0, Y0) ltac:(left)) as [m0 H0]. cbn [fst] in H0.
  cbn [accumulate foldl].
  rewrite madd_zeros_l by (done || by eapply (has_shape_cov_term (X0, Y0))).
  fold (accumulate cov_term (cov_term (X0, Y0)) bl).
  erewrite accumulate_cov_concat; [done|done|exact H0|].
  intros b Hb. apply Hshape. by right.
Qed.

(** X12.  With a loader that yields no batch the loop body never runs, so
    neither [loss_params], [loss] nor [cross] is read: the cells up to the
    ranks complete for every loss name, also an unknown one, the three
    accumulators are still the zero matrices, and the loop variables
    [batch_input] and [batch_label] stay unbound. *)
Theorem empty_loader_never_reads_the_loss c :
  batches c = [] → 0 ≤ total_params c → 0 ≤ cfg_dim c →
  let p := Z.to_nat (total_params c) in
  let d := Z.to_nat (cfg_dim c) in
  ∃ g1 : globals T, measure c ∅ = Ok g1
    ∧ g1 !! "cov" = Some (VMat (zeros d d))
    ∧ g1 !! "H_L" = Some (VMat (zeros p p))
    ∧ g1 !! "H_outer" = Some (VMat (zeros p p))
    ∧ g1 !! "H_F" = Some (VMat (msub (zeros p p) (zeros p p)))
    ∧ g1 !! "batch_input" = None ∧ g1 !! "batch_label" = None.
Proof.
  intros Hb Hp Hd p d.
  destruct (measure_ok c (or_intror Hb) Hp Hd) as (g1 & Hm).
  exists g1. split; [done|].
  destruct (measure_inv c g1 Hm) as (f & _ & _ & _ & _ & Hmeas).
  destruct Hmeas as [Hc HL HO HF _ _ _ _].
  unfold accumulated_cov, accumulated_H_L, accumulated_H_outer in *.
  rewrite Hb in *. cbn [accumulate foldl] in *.
  do 4 (split; [done|]).
  revert Hm. unfold measure, then_.
  destruct (setup c ∅) as [g0|] eqn:H0; [|done]. cbn [mbind result_bind].
  pose proof (setup_modifies c ∅ g0 H0) as F0.
  destruct (setup_spec c) as (g0' & H0' & Hs). rewrite H0 in H0'.
  injection H0' as <-.
  unfold cell_accumulate, then_, accumulation_loop.
  destruct (init_accumulators g0) as [ga|] eqn:Ha; [|done].
  cbn [mbind result_bind].
  assert (modifies (T := T) init_accumulators ["H_L"; "H_outer"; "cov"]) as Ma
    by (unfold init_accumulators; solve_modifies).
  pose proof (Ma g0 ga Ha) as Fa.
  unfold get_loader, get. rewrite Fa by solve_names.
  rewrite (setup_train_loader c g0 Hs), Hb. cbn [mbind result_bind for_each].
  destruct (functional_hessian ga) as [gf|] eqn:Hf; [|done].
  cbn [mbind result_bind].
  assert (modifies (T := T) functional_hessian ["H_F"]) as Mf
    by (unfold functional_hessian; solve_modifies).
  pose proof (Mf ga gf Hf) as Ff.
  intros Hr. pose proof (cell_ranks_modifies gf g1 Hr) as Fr.
  rewrite !Fr, !Ff, !Fa, !F0 by solve_names. done.
Qed.

(** X13.  When [p] or [dim] is negative the accumulation cell stops at
    [jnp.zeros] with its shape error: no batch is processed and no
    matrix is accumulated. *)
Theorem negative_size_stops_the_accumulation_cell (g : globals T) p d :
  g !! "p" = Some (VInt p) → g !! "dim" = Some (VInt d) →
  p < 0 ∨ d < 0 → cell_accumulate g = Raise ShapeError.
Proof.
  intros Hp Hd Hneg.
  unfold cell_accumulate, init_accumulators, square_zeros, jnp_zeros.
  exec.
  destruct (Z.ltb_spec p 0) as [|Hp0]; cbn; [done|]. exec.
  destruct (Z.ltb_spec d 0) as [|Hd0]; cbn; [done|]. lia.
Qed.

(** X14.  The last cell rebinds [classes] every time it is executed.
    After [n+1] executions in a row with the cross-entropy loss,
    [classes] is the count before the first execution minus [n+1], and
    [s], [q] and the predictions are those of that count; with any other
    loss name [classes] stays and the predictions are those of the first
    execution.  Every execution appends three lines to the console. *)
Theorem rerunning_last_cell_decrements_again n :
  ∀ (g g' : globals T) name r k0 ws rF rO rL,
  g !! "loss_name" = Some (VStr name) → g !! "rank_cov" = Some (VI64 r) →
  g !! "classes" = Some (VInt k0) → g !! "widths" = Some (VInts ws) →
  g !! "rank_F" = Some (VI64 rF) → g !! "rank_outer" = Some (VI64 rO) →
  g !! "rank_L" = Some (VI64 rL) →
  rerun (S n) cell_bounds g = Ok g' →
  let k := if String.eqb name "cross" then k0 - Z.of_nat (S n) else k0 in
  g' !! "classes" = Some (VInt k)
  ∧ (∃ pr, bounds r k ws = Ok pr
       ∧ g' !! "s" = Some (VI64 (val_s pr)) ∧ g' !! "q" = Some (VI64 (val_q pr))
       ∧ g' !! "pred_F" = Some (VI64 (val_pred_F pr))
       ∧ g' !! "pred_outer" = Some (VI64 (val_pred_outer pr))
       ∧ g' !! "pred_L" = Some (VI64 (val_pred_L pr)))
  ∧ length (console g') = (length (console g) + 3 * S n)%nat.
Proof.
  induction n as [|n IH];
    intros g g' name r k0 ws rF rO rL Hn Hr Hk Hw HrF HrO HrL Hrun.
  - pose proof (cell_bounds_console g name r k0 ws rF rO rL
                  Hn Hr Hk Hw HrF HrO HrL) as Hc.
    cbn [rerun] in Hrun. unfold then_ in Hrun.
    unfold effective_classes in Hc. cbv zeta.
    replace (k0 - Z.of_nat 1) with (k0 - 1) by lia.
    destruct (bounds r _ ws) as [pr|e].
    + destruct Hc as (g1 & Hg1 & Hk1 & Hs & Hq & HpF & HpO & HpL & Hcon & _).
      rewrite Hg1 in Hrun. cbn [mbind result_bind] in Hrun. injection Hrun as <-.
      split; [done|]. split; [by exists pr|].
      unfold console at 1. rewrite Hcon. rewrite length_app. cbn. lia.
    + rewrite Hc in Hrun. done.
  - pose proof (cell_bounds_console g name r k0 ws rF rO rL
                  Hn Hr Hk Hw HrF HrO HrL) as Hc.
    change (rerun (S (S n)) cell_bounds g)
      with (g1 ← cell_bounds g; rerun (S n) cell_bounds g1) in Hrun.
    destruct (bounds r _ ws) as [pr|e]; [|by rewrite Hc in Hrun].
    destruct Hc as (g1 & Hg1 & Hk1 & _ & _ & _ & _ & _ & Hcon & Hfr).
    rewrite Hg1 in Hrun. cbn [mbind result_bind] in Hrun.
    specialize (IH g1 g' name r (effective_classes name k0) ws rF rO rL).
    do 2 (rewrite Hfr in IH by solve_names; specialize (IH ltac:(assumption))).
    specialize (IH Hk1).
    do 4 (rewrite Hfr in IH by solve_names; specialize (IH ltac:(assumption))).
    specialize (IH Hrun). cbv zeta in IH |- *.
    assert (length (console g1) = (length (console g) + 3)%nat) as Ec.
    { unfold console at 1. rewrite Hcon, length_app. done. }
    rewrite Ec in IH.
    unfold effective_classes in IH.
    destruct (String.eqb name "cross").
    + replace (k0 - Z.of_nat (S (S n))) with (k0 - 1 - Z.of_nat (S n)) by lia.
      destruct IH as (? & ? & ?). repeat split; try done. lia.
    + destruct IH as (? & ? & ?). repeat split; try done. lia.
Qed.

(** X15.  Executing the accumulation cell a second time gives the same
    four matrices again: the cell starts from zero accumulators, so what
    the first execution left in [cov], [H_L] and [H_outer] is not counted
    twice. *)
Theorem rerunning_accumulation_cell_is_idempotent c (g1 : globals T) :
  measure c ∅ = Ok g1 →
  ∃ g2, cell_accumulate g1 = Ok g2
    ∧ ∀ x, x ∈ ["cov"; "H_L"; "H_outer"; "H_F"] → g2 !! x = g1 !! x.
Proof.
  intros Hm.
  destruct (measure_inv c g1 Hm) as (f & Hsel & Hp & Hd & Hs & Hmeas).
  destruct (cell_accumulate_ok c g1 Hs) as (g2 & Hg2); [|done..|].
  { destruct Hsel as [->|[_ ->]]; [by left; eexists|by right]. }
  exists g2. split; [done|].
  destruct (cell_accumulate_inv c g1 g2 Hs Hg2)
    as (f' & Hsel' & _ & _ & Hc & HL & HO & HF).
  assert (accumulated_H_L c f' = accumulated_H_L c f
          ∧ accumulated_H_outer c f' = accumulated_H_outer c f) as [EL EO].
  { unfold accumulated_H_L, accumulated_H_outer.
    destruct Hsel as [E|[E Hnil]], Hsel' as [E'|[E' Hnil']]; try congruence.
    - by assert (f' = f) as -> by congruence.
    - by rewrite Hnil. }
  rewrite EL, EO in *. destruct Hmeas as [c1 L1 O1 F1 _ _ _ _].
  intros x Hx. rewrite !elem_of_cons, elem_of_nil in Hx.
  destruct Hx as [->|[->|[->|[->|[]]]]]; congruence.
Qed.

Lemma report_inv what m p (g : globals T) line :
  report what m p g = Ok line →
  ∃ a b, g !! m = Some (VI64 a) ∧ g !! p = Some (VI64 b).
Proof.
  unfold report, get_i64, get.
  destruct (g !! m) as [[]|]; cbn [mbind result_bind]; try done.
  destruct (g !! p) as [[]|]; cbn [mbind result_bind]; try done.
  eauto.
Qed.

Lemma print_inv e (g g' : globals T) :
  print e g = Ok g' →
  ∃ line, e g = Ok line ∧ ∀ x, x ≠ stdout → g' !! x = g !! x.
Proof.
  unfold print. destruct (e g) as [line|]; cbn [mbind result_bind]; [|done].
  intros [= <-]. exists line. split; [done|].
  intros x Hx. by rewrite lookup_insert_ne.
Qed.

(** The three prints succeed only on 64-bit values of the six names. *)
Lemma print_comparison_inv (g g' : globals T) :
  print_comparison g = Ok g' →
  ∃ rF rO rL pF pO pL,
    g !! "rank_F" = Some (VI64 rF) ∧ g !! "rank_outer" = Some (VI64 rO)
    ∧ g !! "rank_L" = Some (VI64 rL) ∧ g !! "pred_F" = Some (VI64 pF)
    ∧ g !! "pred_outer" = Some (VI64 pO) ∧ g !! "pred_L" = Some (VI64 pL).
Proof.
  unfold print_comparison. intros H.
  apply then_inv in H as (g1 & H1 & H). apply then_inv in H as (g2 & H2 & H3).
  apply print_inv in H1 as (l1 & R1 & F1).
  apply print_inv in H2 as (l2 & R2 & F2).
  apply print_inv in H3 as (l3 & R3 & _).
  apply report_inv in R1 as (rF & pF & A1 & B1).
  apply report_inv in R2 as (rO & pO & A2 & B2).
  apply report_inv in R3 as (rL & pL & A3 & B3).
  rewrite F1 in A2, B2 by done. rewrite F2, F1 in A3, B3 by done.
  exists rF, rO, rL, pF, pO, pL. done.
Qed.

(** X16.  Whenever the last cell completes, on any namespace and after
    whatever was printed before it, what it adds to the console is exactly
    three lines: the comparisons for the functional Hessian, the outer
    product and the loss Hessian, in this order, each with the measured
    rank and the prediction that the namespace binds when the cell ends. *)
Theorem last_cell_appends_three_lines (g g' : globals T) :
  cell_bounds g = Ok g' →
  ∃ rF rO rL pF pO pL,
    g' !! "rank_F" = Some (VI64 rF) ∧ g' !! "rank_outer" = Some (VI64 rO)
    ∧ g' !! "rank_L" = Some (VI64 rL) ∧ g' !! "pred_F" = Some (VI64 pF)
    ∧ g' !! "pred_outer" = Some (VI64 pO) ∧ g' !! "pred_L" = Some (VI64 pL)
    ∧ console g'
      = console g ++
        ["Rank of Functional Hessian is " +:+ pretty rF
           +:+ " and the prediction is " +:+ pretty pF;
         "Rank of Gradient Outer Product is " +:+ pretty rO
           +:+ " and the prediction is " +:+ pretty pO;
         "Rank of Loss Hessian is " +:+ pretty rL
           +:+ " and the prediction is " +:+ pretty pL].
Proof.
  unfold cell_bounds. intros H.
  apply then_inv in H as (g1 & H1 & H). apply then_inv in H as (g2 & H2 & H3).
  assert (modifies (T := T) adjust_classes ["classes"]) as M1
    by (unfold adjust_classes; solve_modifies).
  assert (modifies (T := T) compute_bounds
            ["s"; "q"; "pred_F"; "pred_outer"; "pred_L"]) as M2
    by (unfold compute_bounds; solve_modifies).
  pose proof (M1 g g1 H1) as F1. pose proof (M2 g1 g2 H2) as F2.
  destruct (print_comparison_inv g2 g' H3)
    as (rF & rO & rL & pF & pO & pL & A1 & A2 & A3 & B1 & B2 & B3).
  destruct (print_comparison_console g2 rF rO rL pF pO pL A1 A2 A3 B1 B2 B3)
    as (g3 & Hg3 & Hout & F3).
  assert (g3 = g') as -> by congruence.
  exists rF, rO, rL, pF, pO, pL.
  rewrite !F3 by done. do 6 (split; [done|]).
  unfold console at 1. rewrite Hout. unfold console, stdout.
  rewrite F2, F1 by solve_names. done.
Qed.

(** X17.  The predictions do not depend on the measured Hessian ranks: on
    two namespaces that agree on [loss_name], [rank_cov], [classes] and
    [widths], whatever [rank_F], [rank_outer] and [rank_L] are, the last
    cell fails with the same exception or binds the same [classes], [s],
    [q] and predictions. *)
Theorem predictions_ignore_measured_hessian_ranks
    (g1 g2 : globals T) name r k0 ws rF rO rL rF' rO' rL' :
  g1 !! "loss_name" = Some (VStr name) → g2 !! "loss_name" = Some (VStr name) →
  g1 !! "rank_cov" = Some (VI64 r) → g2 !! "rank_cov" = Some (VI64 r) →
  g1 !! "classes" = Some (VInt k0) → g2 !! "classes" = Some (VInt k0) →
  g1 !! "widths" = Some (VInts ws) → g2 !! "widths" = Some (VInts ws) →
  g1 !! "rank_F" = Some (VI64 rF) → g2 !! "rank_F" = Some (VI64 rF') →
  g1 !! "rank_outer" = Some (VI64 rO) → g2 !! "rank_outer" = Some (VI64 rO') →
  g1 !! "rank_L" = Some (VI64 rL) → g2 !! "rank_L" = Some (VI64 rL') →
  (∀ g1', cell_bounds g1 = Ok g1' →
     ∃ g2', cell_bounds g2 = Ok g2'
       ∧ ∀ x, x ∈ ["classes"; "s"; "q"; "pred_F"; "pred_outer"; "pred_L"] →
              g2' !! x = g1' !! x)
  ∧ (∀ e, cell_bounds g1 = Raise e → cell_bounds g2 = Raise e).
Proof.
  intros Hn1 Hn2 Hr1 Hr2 Hk1 Hk2 Hw1 Hw2 HF1 HF2 HO1 HO2 HL1 HL2.
  pose proof (cell_bounds_spec g1 name r k0 ws rF rO rL
                Hn1 Hr1 Hk1 Hw1 HF1 HO1 HL1) as H1.
  pose proof (cell_bounds_spec g2 name r k0 ws rF' rO' rL'
                Hn2 Hr2 Hk2 Hw2 HF2 HO2 HL2) as H2.
  destruct (bounds r (effective_classes name k0) ws) as [pr|e].
  - destruct H1 as (g1' & E1 & A1 & B1 & C1 & D1 & E1' & F1).
    destruct H2 as (g2' & E2 & A2 & B2 & C2 & D2 & E2' & F2).
    split; [|congruence].
    intros g Hg. assert (g = g1') as -> by congruence.
    exists g2'. split; [done|].
    intros x Hx. rewrite !elem_of_cons, elem_of_nil in Hx.
    destruct Hx as [->|[->|[->|[->|[->|[->|[]]]]]]]; congruence.
  - split; [congruence|]. intros e'. rewrite H1, H2. done.
Qed.

(** X18.  The flag [cross] that the loop passes to [outer_prod] and the
    decrement of [classes] in the last cell are decided by two separate
    tests of [loss_name]; in a completed run they agree: [classes] ends
    one below the configured count when [cross] is [True] and at the
    configured count when it is [False]. *)
Theorem cross_flag_matches_class_adjustment c (g : globals T) b :
  run c = Ok g → g !! "cross" = Some (VBool b) →
  g !! "classes" = Some (VInt (if b then cfg_classes c - 1 else cfg_classes c)).
Proof.
  intros Hrun Hcross.
  destruct (run_measured c g Hrun)
    as (g1 & f & Hm & Hb & _ & _ & _ & Hs & Hmeas1 & _).
  pose proof (cell_bounds_modifies g1 g Hb) as Hfr.
  rewrite Hfr in Hcross by solve_names.
  pose proof (cell_bounds_console g1 _ _ _ _ _ _ _
                (setup_loss_name c g1 Hs) (measured_rank_cov c f g1 Hmeas1)
                (setup_classes c g1 Hs) (setup_widths c g1 Hs)
                (measured_rank_F c f g1 Hmeas1)
                (measured_rank_outer c f g1 Hmeas1)
                (measured_rank_L c f g1 Hmeas1)) as Hc.
  destruct (bounds _ _ _) as [pr|e]; [|congruence].
  destruct Hc as (g' & Hg' & Hk & _).
  assert (g' = g) as -> by congruence. rewrite Hk. do 2 f_equal.
  rewrite (setup_cross c g1 Hs) in Hcross.
  destruct (selected (cfg_loss_name c)) as [f'|] eqn:Hsel; [|done].
  injection Hcross as <-.
  apply selected_Some in Hsel as [[-> ->]|[[-> ->]|[-> ->]]]; reflexivity.
Qed.

(** X19.  The loss cell has no [else] branch, so executing it again with a
    name that selects nothing rebinds [loss_name] only: the functions of
    the earlier selection stay bound, and the accumulation cell executed
    next does not raise the name error of a fresh namespace but
    accumulates the Hessians of the earlier loss. *)
Theorem stale_loss_survives_an_unknown_name c c' f :
  selected (cfg_loss_name c) = Some f →
  selected (cfg_loss_name c') = None →
  0 ≤ total_params c → 0 ≤ cfg_dim c →
  ∃ g : globals T,
    (setup c ;; cell_loss c' ;; cell_accumulate)%stmt ∅ = Ok g
    ∧ g !! "loss_name" = Some (VStr (cfg_loss_name c'))
    ∧ g !! "loss" = Some (VFun (Fn_loss f))
    ∧ g !! "loss_params" = Some (VFun (Fn_loss_params f))
    ∧ g !! "H_L" = Some (VMat (accumulated_H_L c f))
    ∧ g !! "H_outer" = Some (VMat (accumulated_H_outer c f)).
Proof.
  intros Hsel Hsel' Hp Hd.
  destruct (setup_spec c) as (g0 & Hsetup & Hs).
  destruct (cell_loss_spec c' g0) as (g0' & Hloss & Hkeep).
  rewrite Hsel' in Hkeep. destruct Hkeep as (Kl & Klp & Kc).
  assert (modifies (T := T) (cell_loss c')
            ["loss_name"; "cross"; "loss"; "loss_params"]) as M
    by (unfold cell_loss; solve_modifies).
  pose proof (M g0 g0' Hloss) as Fr.
  pose proof (setup_loss c g0 Hs) as Hl.
  pose proof (setup_loss_params c g0 Hs) as Hlp.
  pose proof (setup_cross c g0 Hs) as Hcr.
  rewrite Hsel in Hl, Hlp, Hcr. cbn in Hl, Hlp, Hcr.
  destruct (cell_accumulate_spec g0' (total_params c) (cfg_dim c) (batches c)
              (Fn_loss_params f) (Fn_loss f) (the_apply_fn c)
              (initial_params c).2 (is_cross f))
    as (g & Hg & _ & HL & HO & _); try done.
  1-3, 6-7: rewrite Fr by solve_names; by destruct Hs.
  1-3: congruence.
  exists g. unfold then_. rewrite Hsetup. cbn [mbind result_bind].
  rewrite Hloss. cbn [mbind result_bind]. split; [done|].
  pose proof (cell_accumulate_modifies g0' g Hg) as Fa.
  rewrite !Fa by solve_names. rewrite Kl, Klp, Hl, Hlp.
  split; [|done]. by eapply cell_loss_name.
Qed.

(** X20.  A run from an empty namespace completes only if [p] and [dim]
    are not negative, a loss was selected or the loader yielded no batch,
    and the class count used by the bounds, every width, [sum(widths)] and
    [len(widths)+1] are 64-bit integers.  These conditions are necessary;
    nothing is said here of the failures of the imported functions, which
    can stop a run that meets them. *)
Theorem run_completes_only_if c (g : globals T) :
  run c = Ok g →
  0 ≤ total_params c ∧ 0 ≤ cfg_dim c
  ∧ (is_Some (selected (cfg_loss_name c)) ∨ batches c = [])
  ∧ Int64.in_range (effective_classes (cfg_loss_name c) (cfg_classes c)) = true
  ∧ Forall (λ z, Int64.in_range z = true) (cfg_widths c)
  ∧ Int64.in_range (py_sum (cfg_widths c)) = true
  ∧ Int64.in_range (py_len (cfg_widths c) + 1) = true.
Proof.
  intros Hrun.
  destruct (run_measured c g Hrun)
    as (g1 & f & Hm & Hb & Hsel & Hp & Hd & Hs & Hmeas1 & _).
  do 2 (split; [done|]). split.
  { destruct Hsel as [->|[_ ->]]; [by left; eexists|by right]. }
  pose proof (cell_bounds_spec g1 _ _ _ _ _ _ _
                (setup_loss_name c g1 Hs) (measured_rank_cov c f g1 Hmeas1)
                (setup_classes c g1 Hs) (setup_widths c g1 Hs)
                (measured_rank_F c f g1 Hmeas1)
                (measured_rank_outer c f g1 Hmeas1)
                (measured_rank_L c f g1 Hmeas1)) as Hc.
  destruct (bounds _ _ _) as [pr|e] eqn:Hbd; [|congruence].
  apply bounds_inv in Hbd as (_ & Hk & Hws & Hsum & Hlen). done.
Qed.

End MoreCells.

(** ** The integer instance, again *)

Lemma symmetric_hessian_2x2 f ps x y : is_symmetric (hessian_2x2 f ps x y).
Proof.
  unfold hessian_2x2. destruct (f ps x y); intros [|[|i]] [|[|j]]; reflexivity.
Qed.

Lemma symmetric_outer_2x2 l a ps x y cr :
  is_symmetric (outer_2x2 l a ps x y cr).
Proof.
  unfold outer_2x2. destruct (l x y); intros [|[|i]] [|[|j]]; reflexivity.
Qed.

Lemma small_batches_shape name b :
  b ∈ batches (small name) → ∃ m, has_shape (S m) 1 b.1.
Proof.
  intros Hb. exists 0%nat.
  change (b ∈ [([[1]], [[1]]); ([[2]], [[0]]); ([[3]], [[1]]); ([[4]], [[0]])])
    in Hb.
  rewrite !elem_of_cons, elem_of_nil in Hb.
  destruct Hb as [->|[->|[->|[->|[]]]]]; split; repeat constructor.
Qed.

Lemma small_batches_nonempty name : batches (small name) ≠ [].
Proof. done. Qed.

Lemma small_inputs name :
  concat (map fst (batches (small name))) = [[1]; [2]; [3]; [4]].
Proof. reflexivity. Qed.

Lemma Z_mul_commutative : ∀ a b : Z, t_mul a b = t_mul b a.
Proof. exact Z.mul_comm. Qed.

Lemma Z_add_zero_l : ∀ a : Z, t_add t_zero a = a.
Proof. exact Z.add_0_l. Qed.

Lemma covariance_is_symmetric_witness :
  ∃ g cov, run (small "mse") = Ok g
    ∧ g !! "cov" = Some (VMat cov) ∧ is_symmetric cov.
Proof.
  destruct (run_small "mse") as [g Hg]; [by eexists|].
  destruct (covariance_is_symmetric (small "mse") g Z_mul_commutative Hg)
    as (cov & Hcov & Hsym).
  exists g, cov. auto.
Defined.

Lemma hessians_are_symmetric_witness :
  ∃ g H_L, run (small "mse") = Ok g
    ∧ g !! "H_L" = Some (VMat H_L) ∧ is_symmetric H_L.
Proof.
  destruct (run_small "mse") as [g Hg]; [by eexists|].
  destruct (hessians_are_symmetric (small "mse") g)
    as (HL & HO & HF & H1 & _ & _ & S1 & _);
    [intros; apply symmetric_hessian_2x2|intros; apply symmetric_outer_2x2
    |exact Hg|].
  exists g, HL. auto.
Defined.

Lemma accumulated_matrices_keep_their_shape_witness :
  ∃ g cov H_F, run (small "mse") = Ok g
    ∧ g !! "cov" = Some (VMat cov) ∧ g !! "H_F" = Some (VMat H_F)
    ∧ has_shape 1 1 cov ∧ has_shape 2 2 H_F.
Proof.
  destruct (run_small "mse") as [g Hg]; [by eexists|].
  destruct (accumulated_matrices_keep_their_shape (small "mse") g)
    as (cov & HL & HO & HF & H1 & _ & _ & H4 & S1 & _ & _ & S4);
    [apply small_batches_shape|intros; apply shape_hessian_2x2
    |intros; apply shape_outer_2x2|exact Hg|].
  exists g, cov, HF. auto.
Defined.

Lemma covariance_is_independent_of_batching_witness :
  ∃ g, run (small "mse") = Ok g
    ∧ g !! "cov"
      = Some (VMat (matmul (transpose [[1]; [2]; [3]; [4]])
                      [[1]; [2]; [3]; [4]])).
Proof.
  destruct (run_small "mse") as [g Hg]; [by eexists|].
  exists g. split; [exact Hg|].
  pose proof (covariance_is_independent_of_batching (small "mse") g
                Z_add_zero_l (small_batches_nonempty "mse")
                (small_batches_shape "mse") Hg) as H.
  cbv zeta in H. rewrite small_inputs in H. exact H.
Defined.

Lemma empty_loader_never_reads_the_loss_witness :
  ∃ g1, measure (Collaborators0 := with_loader Z_collaborators no_batches)
          (small "tanh") ∅ = Ok g1
    ∧ g1 !! "H_L" = Some (VMat [[0; 0]; [0; 0]])
    ∧ g1 !! "batch_input" = None.
Proof.
  destruct (empty_loader_never_reads_the_loss
              (Collaborators0 := with_loader Z_collaborators no_batches)
              (small "tanh"))
    as (g1 & H1 & _ & HL & _ & _ & Hb & _); [reflexivity|done|done|].
  exists g1. split; [exact H1|]. split; [exact HL|exact Hb].
Defined.

Lemma negative_size_stops_the_accumulation_cell_witness :
  cell_accumulate negative_size_namespace = Raise ShapeError.
Proof.
  apply (negative_size_stops_the_accumulation_cell negative_size_namespace (-1) 1);
    [reflexivity|reflexivity|left; lia].
Defined.

Lemma rerunning_last_cell_decrements_again_witness :
  ∃ g', rerun 2 cell_bounds cross_namespace = Ok g'
    ∧ g' !! "classes" = Some (VInt 8).
Proof.
  assert (match rerun 2 cell_bounds cross_namespace with
          | Ok _ => True
          | Raise _ => False
          end) as Hok by (vm_compute; exact I).
  destruct (rerun 2 cell_bounds cross_namespace) as [g'|e] eqn:E;
    [|destruct Hok].
  exists g'. split; [reflexivity|].
  destruct (rerunning_last_cell_decrements_again 1 cross_namespace g'
              "cross" 25 10 [5; 10] 175 150 250) as (Hk & _);
    [reflexivity..|exact E|exact Hk].
Defined.

Lemma rerunning_accumulation_cell_is_idempotent_witness :
  ∃ g1 g2, measure (small "mse") ∅ = Ok g1 ∧ cell_accumulate g1 = Ok g2
    ∧ g2 !! "H_L" = g1 !! "H_L".
Proof.
  destruct (measure_ok (small "mse")) as [g1 Hg1]; [left; by eexists|done..|].
  destruct (rerunning_accumulation_cell_is_idempotent (small "mse") g1 Hg1)
    as (g2 & Hg2 & Hsame).
  exists g1, g2. split; [exact Hg1|]. split; [exact Hg2|].
  apply Hsame. solve_names.
Defined.

Lemma last_cell_appends_three_lines_witness :
  ∃ g', cell_bounds downloaded_namespace = Ok g'
    ∧ length (console g') = 5%nat.
Proof.
  assert (match cell_bounds downloaded_namespace with
          | Ok _ => True
          | Raise _ => False
          end) as Hok by (vm_compute; exact I).
  destruct (cell_bounds downloaded_namespace) as [g'|e] eqn:E;
    [|destruct Hok].
  destruct (last_cell_appends_three_lines downloaded_namespace g' E)
    as (rF & rO & rL & pF & pO & pL & _ & _ & _ & _ & _ & _ & Hcon).
  exists g'. split; [reflexivity|]. rewrite Hcon. reflexivity.
Defined.

Lemma predictions_ignore_measured_hessian_ranks_witness :
  ∃ g1' g2', cell_bounds (recorded_namespace "mse") = Ok g1'
    ∧ cell_bounds other_ranks_namespace = Ok g2'
    ∧ g2' !! "pred_L" = g1' !! "pred_L".
Proof.
  assert (match cell_bounds (recorded_namespace "mse") with
          | Ok _ => True
          | Raise _ => False
          end) as Hok by (vm_compute; exact I).
  destruct (cell_bounds (recorded_namespace "mse")) as [g1'|e] eqn:E;
    [|destruct Hok].
  destruct (predictions_ignore_measured_hessian_ranks
              (recorded_namespace "mse") other_ranks_namespace
              "mse" 25 10 [5; 10] 175 150 250 3 2 1) as [Hsame _];
    [reflexivity..|].
  destruct (Hsame g1' E) as (g2' & Hg2' & Hagree).
  exists g1', g2'. split; [reflexivity|]. split; [exact Hg2'|].
  apply Hagree. solve_names.
Defined.

Lemma cross_flag_matches_class_adjustment_witness :
  ∃ g, run (small "cross") = Ok g
    ∧ g !! "cross" = Some (VBool true) ∧ g !! "classes" = Some (VInt 0).
Proof.
  destruct (run_small "cross") as [g Hg]; [by eexists|].
  destruct (run_measured (small "cross") g Hg)
    as (g1 & f & _ & Hb & _ & _ & _ & Hs & _ & _).
  assert (g !! "cross" = Some (VBool true)) as Hc.
  { rewrite (cell_bounds_modifies g1 g Hb) by solve_names.
    exact (setup_cross (small "cross") g1 Hs). }
  exists g. split; [exact Hg|]. split; [exact Hc|].
  exact (cross_flag_matches_class_adjustment (small "cross") g true Hg Hc).
Defined.

Lemma stale_loss_survives_an_unknown_name_witness :
  ∃ g : globals Z,
    (setup (small "mse") ;; cell_loss (small "tanh") ;; cell_accumulate)%stmt ∅
    = Ok g
    ∧ g !! "loss_name" = Some (VStr "tanh")
    ∧ g !! "loss" = Some (VFun (Fn_loss Mse)).
Proof.
  destruct (stale_loss_survives_an_unknown_name (small "mse") (small "tanh") Mse)
    as (g & Hg & Hn & Hl & _); [reflexivity|reflexivity|done|done|].
  exists g. split; [exact Hg|]. split; [exact Hn|exact Hl].
Defined.

Lemma run_completes_only_if_witness :
  ∃ g, run (small "mse") = Ok g
    ∧ 0 ≤ total_params (small "mse")
    ∧ Int64.in_range (py_sum (cfg_widths (small "mse"))) = true.
Proof.
  destruct (run_small "mse") as [g Hg]; [by eexists|].
  destruct (run_completes_only_if (small "mse") g Hg)
    as (Hp & _ & _ & _ & _ & Hsum & _).
  exists g. split; [exact Hg|]. split; [exact Hp|exact Hsum].
Defined.

(** ** Accumulation in float64 *)

Import FloatModel.

Lemma float_cov_forward :
  accumulated_cov (Collaborators0 := float_collaborators) linear_model
  = [[1e16%float]].
Proof. reflexivity. Qed.

Lemma float_cov_backward :
  accumulated_cov
    (Collaborators0 := with_loader float_collaborators sample_by_sample_rev)
    linear_model
  = [[1.0000000000000002e16%float]].
Proof. reflexivity. Qed.

(** C5, as stated, fails in float64.  The three batches [1e8], [1], [1]
    give the covariance [1e16] when they are processed in this order (each
    [+ 1] is rounded away) and [1.0000000000000002e16] when they are
    processed last one first: two orders of the same batches, two
    different values of [cov]. *)
Lemma batch_order_invariance_counterexample :
  ∃ g1 g2 : globals float,
    batches
      (Collaborators0 := with_loader float_collaborators sample_by_sample_rev)
      linear_model
    ≡ₚ batches (Collaborators0 := float_collaborators) linear_model
    ∧ measure (Collaborators0 := float_collaborators) linear_model ∅ = Ok g1
    ∧ measure
        (Collaborators0 := with_loader float_collaborators sample_by_sample_rev)
        linear_model ∅ = Ok g2
    ∧ g1 !! "cov" = Some (VMat [[1e16%float]])
    ∧ g2 !! "cov" = Some (VMat [[1.0000000000000002e16%float]])
    ∧ g2 !! "cov" ≠ g1 !! "cov".
Proof.
  destruct (measure_ok (Collaborators0 := float_collaborators) linear_model)
    as [g1 Hg1]; [left; by eexists|done..|].
  destruct (measure_ok
              (Collaborators0 := with_loader float_collaborators
                                   sample_by_sample_rev)
              linear_model) as [g2 Hg2]; [left; by eexists|done..|].
  destruct (measure_inv _ g1 Hg1) as (f1 & _ & _ & _ & _ & M1).
  destruct (measure_inv _ g2 Hg2) as (f2 & _ & _ & _ & _ & M2).
  pose proof (measured_cov _ _ _ M1) as C1. rewrite float_cov_forward in C1.
  pose proof (measured_cov _ _ _ M2) as C2. rewrite float_cov_backward in C2.
  exists g1, g2. split; [apply reverse_Permutation|].
  do 4 (split; [done|]). rewrite C1, C2. intros E.
  apply (f_equal (λ v : option (value float),
                    match v with
                    | Some (VMat [[x]]) => PrimFloat.eqb x 1e16
                    | _ => false
                    end)) in E.
  vm_compute in E. discriminate E.
Qed.
